(** * tig/symbolic_execution.py: constraint extraction on top of angr

    A shallow embedding of [src/tig/symbolic_execution.py].  The symbolic
    execution engine (angr), its solver front end (claripy) and the loader
    (cle) are external: they appear as the interface [Angr] below, and every
    definition of the module is written against that interface.  Python
    exceptions are values of [exn], carried by the [result] monad; code that
    mutates an object in place runs in the state-and-exception monad [M]. *)

From Stdlib Require Import ZArith List String Lia HexString.
From stdpp Require Import base option list gmap sets strings pretty.
Import ListNotations.

Local Open Scope Z_scope.

(** ** Python: exceptions, [range], [hex] *)

Module Py.

(** The exceptions the module can meet.  [EngineError] stands for whatever an
    angr or claripy call raises (unsatisfiable query, timeout, ...). *)
Inductive exn : Type :=
| KeyError (key : string)
| ValueError (msg : string)
| AttributeError (attr : string)
| EngineError (msg : string).

Inductive result (A : Type) : Type :=
| Ok (a : A)
| Raise (e : exn).
Arguments Ok {A} a.
Arguments Raise {A} e.

#[export] Instance result_ret : MRet result := fun _ a => Ok a.
#[export] Instance result_bind : MBind result := fun _ _ f m =>
  match m with
  | Ok a => f a
  | Raise e => Raise e
  end.

(** A computation over one mutable object of type [S]: the object is threaded
    through, and survives a raised exception as the interpreter leaves it. *)
Definition M (S A : Type) : Type := S -> result A * S.

#[export] Instance M_ret {S} : MRet (M S) := fun _ a s => (Ok a, s).
#[export] Instance M_bind {S} : MBind (M S) := fun _ _ f m s =>
  match m s with
  | (Ok a, s') => f a s'
  | (Raise e, s') => (Raise e, s')
  end.

Definition get {S} : M S S := fun s => (Ok s, s).
Definition modify {S} (f : S -> S) : M S unit := fun s => (Ok tt, f s).
Definition lift {S A} (r : result A) : M S A := fun s => (r, s).

(** [for x in l: body x] *)
Fixpoint for_ {S A} (l : list A) (body : A -> M S unit) : M S unit :=
  match l with
  | [] => mret tt
  | x :: l' => body x ≫= fun _ => for_ l' body
  end.

(** [d[key]] on a dict. *)
Definition getitem {V} (d : gmap string V) (key : string) : result V :=
  match d !! key with
  | Some v => Ok v
  | None => Raise (KeyError key)
  end.

(** [len(range(lo, hi, step))] for a non-zero step, as CPython computes it. *)
Definition range_length (lo hi step : Z) : Z :=
  if 0 <? step then (if lo <? hi then 1 + (hi - 1 - lo) / step else 0)
  else (if hi <? lo then 1 + (lo - 1 - hi) / (- step) else 0).

(** The items of [range(lo, hi, step)]: [lo + i*step] for [i < len]. *)
Definition range_items (lo hi step : Z) : list Z :=
  map (fun i => lo + Z.of_nat i * step) (seq 0 (Z.to_nat (range_length lo hi step))).

(** [range(lo, hi, step)], which refuses a zero step. *)
Definition range (lo hi step : Z) : result (list Z) :=
  if step =? 0 then Raise (ValueError "range() arg 3 must not be zero")
  else Ok (range_items lo hi step).

(** [hex(n)]: ["0x"] and lowercase digits, a leading ["-"] when negative. *)
Definition hex (n : Z) : string := HexString.of_Z n.

End Py.
Export Py.

(** ** claripy: the ASTs the module builds *)

(** Bitvector expressions as far as the module creates or receives them. *)
Inductive BV : Type :=
| BVV (value : Z) (size : Z)
| BVS (name : string) (size : Z).

(** Boolean ASTs, kept as the operator applications the source writes:
    [reg == min], [min <= reg], [reg < max]; [BoolV] and [BoolS] stand for the
    constants and for the predicates the engine hands over.  What claripy
    makes of an application (folding it to a constant, say) is seen through
    [is_true] only. *)
Inductive Bool : Type :=
| BoolV (b : bool)
| BoolS (name : string)
| Eq (reg : BV) (v : Z)
| Le (v : Z) (reg : BV)
| Lt (reg : BV) (v : Z).

(** Python values that [solve_opt] can return ([Any]). *)
Inductive Any : Type :=
| PyNone
| PyInt (z : Z)
| PyStr (s : string)
| PyBV (b : BV).

(** ** tig.bininfo *)

(** Modelled from the spec: [BasicBlock] and [Function] are imported from
    tig.bininfo, which is not among the sources.  A basic block has a start
    address and an ordered sequence of instructions, each exposing the
    register identifiers it writes; a function has a name, an entry address
    and its known return addresses. *)
Record Instruction : Type := { regs_written : list string }.
Record BasicBlock : Type := { start_vaddr : Z; instructions : list Instruction }.
Record Function : Type := { name : string; entry_point : Z; return_addrs : list Z }.

(** ** angr objects *)

Inductive Action : Type := print_mem_write | print_reg_write.
Inductive When : Type := BP_BEFORE | BP_AFTER.
Record Breakpoint : Type :=
  { event_type : string; when : When; action : option Action }.

(** A [SimState], as far as the module reads or mutates it: the solver's
    constraint list, the breakpoints of [state.inspect], and [state.memory],
    represented by the [store(addr, value)] calls it received, oldest first. *)
Record SimState : Type :=
  { ip : Z;
    solver_constraints : list Bool;
    memory : list (Z * BV);
    inspect : list Breakpoint }.

Record Section_ : Type := { min_addr : Z; max_addr : Z }.

(** A [Project]: the loaded binary, seen through [loader.main_object.sections_map]. *)
Record Project : Type := { sections_map : gmap string Section_ }.

Record KbFunction : Type := { f_addr : Z }.
(** The recovered control-flow graph: [cfg.kb.functions.function(name=n)] is
    the lookup of [n]. *)
Record CFG : Type := { kb_functions : gmap string KbFunction }.

Inductive Technique : Type :=
| LoopSeer (cfg : CFG) (bound : Z)
| StashMonitor (verbose : bool).

Record SimulationManager : Type :=
  { active : list SimState;
    found : list SimState;
    deadended : list SimState;
    unconstrained : list SimState;
    pruned : list SimState;
    unsat : list SimState;
    save_unconstrained : bool;
    techniques : list Technique }.

(** ** The module's own data *)

Inductive ConstraintType : Type :=
| Unknown | BranchTrue | BranchFalse | DeadEnd | Unconstrained.

Definition ConstraintType_value (t : ConstraintType) : Z :=
  match t with
  | Unknown => 0 | BranchTrue => 1 | BranchFalse => 2
  | DeadEnd => 3 | Unconstrained => 4
  end.

Record Constraint : Type :=
  { type : ConstraintType;
    constraints : list Bool;
    next_addr : option Z }.

(** The engine.  Solver calls and the step of a simulation manager may
    raise; creating a state, recovering the graph and the exploration are
    taken as returning. *)
Class Angr : Type :=
  { (* claripy *)
    is_true : Bool -> bool;
    (* state.solver *)
    solver_add : SimState -> Constraint -> result SimState;
    solver_eval : SimState -> Any -> result Z;
    solver_min : SimState -> BV -> result Z;
    solver_max : SimState -> BV -> result Z;
    (* getattr(state, name), getattr(state.regs, name) *)
    getattr_state : SimState -> string -> result Any;
    getattr_regs : SimState -> string -> result BV;
    (* p.factory, p.analyses *)
    blank_state : Project -> Z -> SimState;
    CFGFast : Project -> CFG;
    (* sm.step(), sm.explore(find=..., num_find=...) with what it prints *)
    step : Project -> SimulationManager -> result SimulationManager;
    explore : Project -> SimulationManager -> list Z -> Z ->
              SimulationManager * list string }.

(** ** The module *)

Section SymbolicExecution.
Context `{angr : Angr}.

(** [Constraint.__init__]: a single [Bool] is wrapped into a list, and the
    predicates that are not [is_true] are kept. *)
Definition Constraint_init (t : ConstraintType) (constraints : Bool + list Bool)
    (next_addr : option Z) : Constraint :=
  {| type := t;
     constraints :=
       List.filter (fun b => negb (is_true b))
         (match constraints with
          | inl b => [b]
          | inr l => l
          end);
     next_addr := next_addr |}.

(** No predicate of [l] is a syntactic tautology. *)
Definition tautology_free (l : list Bool) : Prop :=
  Forall (fun b => is_true b = false) l.

(** [Constraint.add_constraints]: [self.constraints += l]. *)
Definition add_constraints (self : Constraint) (l : list Bool) : Constraint :=
  {| type := type self;
     constraints := constraints self ++ l;
     next_addr := next_addr self |}.

(** [solve_opt]: the bare [except] catches whatever [getattr] or [eval] raises. *)
Definition solve_opt (state : SimState) (to_solve : string) (default : Any) : Any :=
  match getattr_state state to_solve ≫= solver_eval state with
  | Ok v => PyInt v
  | Raise _ => default
  end.

(** The first loop of [reg_constraints]: the union of the registers written
    by the instructions of the block. *)
Definition block_regs_written (bb : BasicBlock) : gset string :=
  foldl (fun acc i => acc ∪ list_to_set (regs_written i)) ∅ (instructions bb).

(** One turn of the second loop of [reg_constraints], [out] being the list
    built so far. *)
Definition reg_constraints_step (state : SimState) (out : list Bool) (reg : string)
    : result (list Bool) :=
  reg ← getattr_regs state reg;
  min ← solver_min state reg;
  max ← solver_max state reg;
  if decide (min = max) then
    mret (out ++ [Eq reg min])
  else
    let out := out ++ [Le min reg] in
    if decide (max < 2 ^ 32) then mret (out ++ [Lt reg max]) else mret out.

(** [for reg in regs: ...] over the accumulator [out]; an exception ends it. *)
Fixpoint reg_constraints_loop (state : SimState) (regs : list string) (out : list Bool)
    : result (list Bool) :=
  match regs with
  | [] => mret out
  | reg :: regs' =>
      reg_constraints_step state out reg ≫= reg_constraints_loop state regs'
  end.

(** [out] when the second loop of [reg_constraints] is over.  A Python set
    is iterated in an order of its own; [elements] fixes one. *)
Definition reg_constraints_out (state : SimState) (bb : BasicBlock) : result (list Bool) :=
  reg_constraints_loop state (elements (block_regs_written bb)) [].

Definition reg_constraints (state : SimState) (bb : BasicBlock) : result (list Bool) :=
  out ← reg_constraints_out state bb;
  mret (List.filter (fun x => negb (is_true x)) out).

(** The Register Range Synthesizer in the words of the specification, for one
    register whose feasible minimum and maximum are known: an equality when
    they agree, else the lower bound and, below the ceiling [2^32], the upper
    bound.  [reg_constraints_out] is compared with it. *)
Definition range_predicates (reg : BV) (min max : Z) : list Bool :=
  if decide (min = max) then [Eq reg min]
  else if decide (max < 2 ^ 32) then [Le min reg; Lt reg max]
  else [Le min reg].

(** The three queries [reg_constraints] makes for the register named [r]. *)
Definition queried (state : SimState) (r : string) (q : BV * Z * Z) : Prop :=
  getattr_regs state r = Ok q.1.1 /\
  solver_min state q.1.1 = Ok q.1.2 /\
  solver_max state q.1.1 = Ok q.2.

(** The state once its memory has received the stores [new], in order. *)
Definition stored (new : list (Z * BV)) (st : SimState) : SimState :=
  {| ip := ip st;
     solver_constraints := solver_constraints st;
     memory := memory st ++ new;
     inspect := inspect st |}.

(** [state.memory.store(addr, value)] *)
Definition memory_store (addr : Z) (value : BV) : M SimState unit :=
  modify (stored [(addr, value)]).

(** [state.solver.BVS(name, size)]: claripy refuses a negative width.  The
    value [BVS name size] records the name and the width the call was given;
    claripy makes the symbol unique by a suffix of its own, which is not
    represented, so symbols of different calls are never compared. *)
Definition solver_BVS (name : string) (size : Z) : M SimState BV :=
  if size <? 0 then lift (Raise (EngineError "negative width"))
  else mret (BVS name size).

(** What one loop of the Memory Symbolizer is specified to store over the
    addresses [addrs]: at each address a symbol of [chunk_size*8] bits named
    by the prefix and the address in hexadecimal. *)
Definition symbolic_chunks (prefix : string) (chunk_size : Z) (addrs : list Z)
    : list (Z * BV) :=
  map (fun addr => (addr, BVS (prefix +:+ hex addr) (chunk_size * 8))) addrs.

(** [state.inspect.b(event_type, when=..., action=...)] *)
Definition inspect_b (event_type : string) (when : When) (action : option Action)
    (st : SimState) : SimState :=
  {| ip := ip st;
     solver_constraints := solver_constraints st;
     memory := memory st;
     inspect := inspect st ++
       [{| event_type := event_type; when := when; action := action |}] |}.

(** [make_static_memory_symbolic]: the state is mutated in place, so the
    result is paired with the state object as the call leaves it. *)
Definition make_static_memory_symbolic (project : Project) (state : SimState)
    (chunk_size : Z) : result SimState * SimState :=
  (data_section ← lift (getitem (sections_map project) ".data");
   bss_section ← lift (getitem (sections_map project) ".bss");
   addrs ← lift (range (min_addr data_section) (max_addr data_section) chunk_size);
   for_ addrs (fun addr =>
     let sym_name := "data_" +:+ hex addr in
     symbolic_value ← solver_BVS sym_name (chunk_size * 8);
     memory_store addr symbolic_value);;
   addrs ← lift (range (min_addr bss_section) (max_addr bss_section) chunk_size);
   for_ addrs (fun addr =>
     let sym_name := "bss_" +:+ hex addr in
     symbolic_value ← solver_BVS sym_name (chunk_size * 8);
     memory_store addr symbolic_value);;
   get) state.

(** [p.factory.simgr(state, save_unconstrained=...)] *)
Definition simgr (state : SimState) (save_unconstrained : bool) : SimulationManager :=
  {| active := [state]; found := []; deadended := []; unconstrained := [];
     pruned := []; unsat := [];
     save_unconstrained := save_unconstrained; techniques := [] |}.

(** [sm.use_technique(t)] *)
Definition use_technique (t : Technique) (sm : SimulationManager) : SimulationManager :=
  {| active := active sm; found := found sm; deadended := deadended sm;
     unconstrained := unconstrained sm; pruned := pruned sm; unsat := unsat sm;
     save_unconstrained := save_unconstrained sm;
     techniques := techniques sm ++ [t] |}.

(** [print(...)], one line on standard output. *)
Definition print (line : string) : M (list string) unit :=
  modify (fun out => out ++ [line]).

(** [sm.explore(find=..., num_find=...)], with the lines its hooks print. *)
Definition sm_explore (p : Project) (sm : SimulationManager) (find : list Z)
    (num_find : Z) : M (list string) SimulationManager :=
  fun out => let '(sm', printed) := explore p sm find num_find in (Ok sm', out ++ printed).

(** [exec_func], over standard output. *)
Definition exec_func (p : Project) (func : Function) : M (list string) (list (list Bool)) :=
  let state := blank_state p (entry_point func) in
  state ← lift (fst (make_static_memory_symbolic p state 4));
  let state := inspect_b "mem_write" BP_AFTER (Some print_mem_write) state in
  let state := inspect_b "reg_write" BP_AFTER (Some print_reg_write) state in
  let sm := simgr state false in
  let regions := map (fun ret => (entry_point func, ret)) (return_addrs func) in
  let in_regions := fun addr =>
    existsb (fun '(e, r) => (e <=? addr) && (addr <=? r)) regions in
  let cfg := CFGFast p in
  let f := kb_functions cfg !! name func in
  match f with
  | None =>
      print ("Can't find function " +:+ name func);;
      mret []
  | Some _ =>
      let sm := use_technique (LoopSeer cfg 5) sm in
      let sm := use_technique (StashMonitor true) sm in
      sm ← sm_explore p sm (return_addrs func) 100;
      mret (map solver_constraints (found sm))
  end.

(** [for c in input_constraints: state.solver.add(c)]; the first call that
    raises ends the loop. *)
Fixpoint solver_add_all (state : SimState) (input_constraints : list Constraint)
    : result SimState :=
  match input_constraints with
  | [] => mret state
  | c :: rest => solver_add state c ≫= fun state => solver_add_all state rest
  end.

(** [exec_bb]: after [sm.step()] the body is a string literal, evaluated and
    dropped; the function ends in [return []].  What [state.solver.add] or
    [sm.step()] raises is not caught. *)
Definition exec_bb (p : Project) (bb : BasicBlock) (input_constraints : list Constraint)
    : result (list Constraint) :=
  let state := blank_state p (start_vaddr bb) in
  state ← solver_add_all state input_constraints;
  let state := inspect_b "mem_write" BP_AFTER None state in
  let state := inspect_b "reg_write" BP_AFTER None state in
  let sm := simgr state true in
  sm ← step p sm;
  mret [].

End SymbolicExecution.

(** ** A small engine, for concrete runs *)

Module Toy.

Definition set_ip (a : Z) (st : SimState) : SimState :=
  {| ip := a; solver_constraints := solver_constraints st;
     memory := memory st; inspect := inspect st |}.

Definition assume (c : Bool) (st : SimState) : SimState :=
  {| ip := ip st; solver_constraints := solver_constraints st ++ [c];
     memory := memory st; inspect := inspect st |}.

(** Operations on constants fold; nothing else is recognised as true. *)
Definition toy_is_true (b : Bool) : bool :=
  match b with
  | BoolV v => v
  | Eq (BVV x _) v => x =? v
  | Le v (BVV x _) => v <=? x
  | Lt (BVV x _) v => x <? v
  | _ => false
  end.

(** A constant is its own bound; a symbol of [size] bits ranges over
    [0 .. 2^size - 1], except the symbol [unsat], on which the solver fails. *)
Definition toy_min (st : SimState) (e : BV) : result Z :=
  match e with
  | BVV x _ => Ok x
  | BVS n _ => if String.eqb n "unsat" then Raise (EngineError "unsat") else Ok 0
  end.

Definition toy_max (st : SimState) (e : BV) : result Z :=
  match e with
  | BVV x _ => Ok x
  | BVS n size =>
      if String.eqb n "unsat" then Raise (EngineError "unsat") else Ok (2 ^ size - 1)
  end.

Definition toy_eval (st : SimState) (v : Any) : result Z :=
  match v with
  | PyInt z => Ok z
  | PyBV (BVV x _) => Ok x
  | _ => Raise (EngineError "unsat")
  end.

Definition toy_getattr_state (st : SimState) (attr : string) : result Any :=
  if String.eqb attr "addr" then Ok (PyInt (ip st))
  else Raise (AttributeError attr).

(** Four registers: two symbols, a constant, and one the solver fails on. *)
Definition toy_getattr_regs (st : SimState) (reg : string) : result BV :=
  if String.eqb reg "a0" then Ok (BVS "a0" 32)
  else if String.eqb reg "a1" then Ok (BVS "a1" 64)
  else if String.eqb reg "sp" then Ok (BVV 4096 32)
  else if String.eqb reg "t0" then Ok (BVS "unsat" 32)
  else Raise (AttributeError reg).

Definition toy_blank_state (p : Project) (a : Z) : SimState :=
  {| ip := a; solver_constraints := []; memory := []; inspect := [] |}.

Definition toy_CFGFast (p : Project) : CFG :=
  {| kb_functions := {[ "main"%string := {| f_addr := 4096 |} ]} |}.

(** Every active state forks on a condition into two successors. *)
Definition toy_step (p : Project) (sm : SimulationManager) : SimulationManager :=
  {| active :=
       flat_map (fun s => [assume (BoolS "cond") (set_ip (ip s + 8) s);
                           assume (BoolS "not_cond") (set_ip (ip s + 4) s)])
                (active sm);
     found := found sm; deadended := deadended sm;
     unconstrained := unconstrained sm; pruned := pruned sm; unsat := unsat sm;
     save_unconstrained := save_unconstrained sm; techniques := techniques sm |}.

(** Exploration finds the states it was started with, under one constraint. *)
Definition toy_explore (p : Project) (sm : SimulationManager) (find : list Z)
    (num_find : Z) : SimulationManager * list string :=
  ({| active := [];
      found := map (assume (BoolS "path")) (active sm);
      deadended := deadended sm;
      unconstrained := unconstrained sm; pruned := pruned sm; unsat := unsat sm;
      save_unconstrained := save_unconstrained sm; techniques := techniques sm |},
   ["After step:"%string]).

#[export] Instance toy : Angr :=
  {| is_true := toy_is_true;
     solver_add := fun st c => Ok (foldl (fun st b => assume b st) st (constraints c));
     solver_eval := toy_eval;
     solver_min := toy_min;
     solver_max := toy_max;
     getattr_state := toy_getattr_state;
     getattr_regs := toy_getattr_regs;
     blank_state := toy_blank_state;
     CFGFast := toy_CFGFast;
     step := fun p sm => Ok (toy_step p sm);
     explore := toy_explore |}.

Definition data_bss : Project :=
  {| sections_map :=
       {[ ".data"%string := {| min_addr := 8192; max_addr := 8202 |};
          ".bss"%string := {| min_addr := 12288; max_addr := 12296 |} ]} |}.

Definition data_only : Project :=
  {| sections_map := {[ ".data"%string := {| min_addr := 8192; max_addr := 8202 |} ]} |}.

Definition main : Function :=
  {| name := "main"; entry_point := 4096; return_addrs := [4128] |}.

Definition helper : Function :=
  {| name := "helper"; entry_point := 4200; return_addrs := [4240] |}.

Definition s0 : SimState := toy_blank_state data_bss 4096.

Definition block (regs : list string) : BasicBlock :=
  {| start_vaddr := 4096; instructions := [{| regs_written := regs |}] |}.

End Toy.

(** ** [get_project] *)

(** How [get_project] can end in an exception: its own
    [raise Exception(msg)], or whatever the loader raises. *)
Inductive raised : Type :=
| Exception (msg : string)
| Propagated (e : exn).

Definition default_lang : string := "RISCV:LE:32:default".

Section GetProject.
(** pypcode: the architectures of [Arch.enumerate()], the languages of each,
    and the identifier of a language. *)
Variable Arch : Type.
Variable ArchLanguage : Type.
Variable languages : Arch -> list ArchLanguage.
Variable id : ArchLanguage -> string.
Variable enumerate : list Arch.
(** [angr.Project(bin_path, arch=archinfo.ArchPcode(l), auto_load_libs=False)] *)
Variable load : string -> ArchLanguage -> result Project.

(** [for l in arch.languages: if l.id == lang: sparc_lang = l; break] *)
Fixpoint search_languages (ls : list ArchLanguage) (lang : string)
    (sparc_lang : option ArchLanguage) : option ArchLanguage :=
  match ls with
  | [] => sparc_lang
  | l :: ls' =>
      if decide (id l = lang) then Some l
      else search_languages ls' lang sparc_lang
  end.

(** [for arch in ...: <inner loop>; if sparc_lang is not None: break] *)
Fixpoint search_arches (arches : list Arch) (lang : string)
    (sparc_lang : option ArchLanguage) : option ArchLanguage :=
  match arches with
  | [] => sparc_lang
  | arch :: arches' =>
      let sparc_lang := search_languages (languages arch) lang sparc_lang in
      match sparc_lang with
      | Some _ => sparc_lang
      | None => search_arches arches' lang sparc_lang
      end
  end.

Definition get_project (bin_path : string) (lang : string) : raised + Project :=
  let sparc_lang := search_arches enumerate lang None in
  match sparc_lang with
  | None => inl (Exception ("Unable to find SPARC language for " +:+ lang))
  | Some l =>
      match load bin_path l with
      | Ok p => inr p
      | Raise e => inl (Propagated e)
      end
  end.

End GetProject.

Arguments search_languages {ArchLanguage} id ls lang sparc_lang.
Arguments search_arches {Arch ArchLanguage} languages id arches lang sparc_lang.
Arguments get_project {Arch ArchLanguage} languages id enumerate load bin_path lang.

(** ** [StashMonitor] *)

(** Standard output as the characters written to it: [print(text, end=e)]
    appends [text] and [e]. *)
Definition nl : string := String (Ascii.ascii_of_nat 10) "".

Definition print_end (text end_ : string) : M string unit :=
  modify (fun out => out +:+ text +:+ end_).

Section StashMonitor.
Context `{angr : Angr}.
(** [simgr.stashes.items()], in the order of the dictionary, and
    [simgr.step(stash=stash, **kwargs)], which may raise. *)
Variable kwargs : Type.
Variable stashes_items : SimulationManager -> list (string * list SimState).
Variable simgr_step : SimulationManager -> string -> kwargs -> result SimulationManager.

(** [try: print(f"{hex(s.addr)},", end="")], [except: print("<symbolic>,", end="")];
    [hex] refuses what is not an integer, which the bare [except] catches too. *)
Definition print_state_addr (s : SimState) : M string unit :=
  match getattr_state s "addr" with
  | Ok (PyInt a) => print_end (hex a +:+ ",") ""
  | _ => print_end "<symbolic>," ""
  end.

(** [StashMonitor._print_stashes] *)
Definition _print_stashes (simgr : SimulationManager) : M string unit :=
  for_ (stashes_items simgr) (fun '(stash_name, states) =>
    match states with
    | [] => mret tt
    | _ :: _ =>
        print_end (stash_name +:+ " (" +:+ pretty (length states) +:+ "): [") "";;
        for_ states print_state_addr;;
        print_end "]" nl
    end).

(** [StashMonitor.step], [verbose] being [self.verbose]; an exception of
    [simgr.step] is not caught. *)
Definition StashMonitor_step (verbose : bool) (simgr : SimulationManager)
    (stash : string) (kw : kwargs) : M string SimulationManager :=
  (if verbose then
     print_end (nl +:+ "Before step:") nl;;
     _print_stashes simgr
   else mret tt);;
  simgr ← lift (simgr_step simgr stash kw);
  (if verbose then
     print_end (nl +:+ "After step:") nl;;
     _print_stashes simgr
   else mret tt);;
  mret simgr.

(** The text [_print_stashes] is meant to produce for one stash. *)
Definition stash_line (stash_name : string) (states : list SimState) : string :=
  match states with
  | [] => ""
  | _ :: _ =>
      stash_name +:+ " (" +:+ pretty (length states) +:+ "): [" +:+
      foldr (fun s rest =>
               match getattr_state s "addr" with
               | Ok (PyInt a) => hex a +:+ "," +:+ rest
               | _ => "<symbolic>," +:+ rest
               end) ("]" +:+ nl) states
  end.

(** The text for all the stashes, in the order of the dictionary. *)
Definition stashes_text (simgr : SimulationManager) : string :=
  foldr (fun '(stash_name, states) rest => stash_line stash_name states +:+ rest)
        "" (stashes_items simgr).

End StashMonitor.

Arguments StashMonitor_step {angr kwargs} stashes_items simgr_step verbose simgr stash kw.

(** ** Sample data for the monitor and the language search *)

Module Sample.

Definition symbolic_ip : SimState :=
  {| ip := 0; solver_constraints := [BoolS "free"]; memory := []; inspect := [] |}.

(** An engine on which the address of a state without constraints is its
    [ip], and that of a constrained one cannot be read. *)
#[export] Instance angr : Angr :=
  {| is_true := Toy.toy_is_true;
     solver_add := fun st c => Ok st;
     solver_eval := Toy.toy_eval;
     solver_min := Toy.toy_min;
     solver_max := Toy.toy_max;
     getattr_state := fun st attr =>
       match solver_constraints st with
       | [] => Toy.toy_getattr_state st attr
       | _ :: _ => Raise (EngineError "symbolic")
       end;
     getattr_regs := Toy.toy_getattr_regs;
     blank_state := Toy.toy_blank_state;
     CFGFast := Toy.toy_CFGFast;
     step := fun p sm => Ok (Toy.toy_step p sm);
     explore := Toy.toy_explore |}.

Definition items (sm : SimulationManager) : list (string * list SimState) :=
  [("active"%string, active sm); ("deadended"%string, deadended sm);
   ("unconstrained"%string, unconstrained sm)].

Definition sm0 : SimulationManager :=
  {| active := [Toy.s0; symbolic_ip]; found := []; deadended := [];
     unconstrained := [symbolic_ip]; pruned := []; unsat := [];
     save_unconstrained := true; techniques := [StashMonitor true] |}.

Definition sm_empty : SimulationManager :=
  {| active := []; found := [Toy.s0]; deadended := [];
     unconstrained := []; pruned := []; unsat := [];
     save_unconstrained := true; techniques := [] |}.

Definition no_sections : Project := {| sections_map := ∅ |}.

Definition step_active (sm : SimulationManager) (stash : string) (kw : unit)
    : result SimulationManager :=
  if String.eqb stash "active" then Ok (Toy.toy_step Toy.data_bss sm)
  else Raise (EngineError "no such stash").

(** Two architectures; the identifier [RISCV:LE:32:default] occurs twice. *)
Definition arches : list (list (string * nat)) :=
  [[("x86:LE:64:default"%string, 0%nat)];
   [("RISCV:LE:64:default"%string, 1%nat); ("RISCV:LE:32:default"%string, 2%nat);
    ("RISCV:LE:32:default"%string, 3%nat)]].

Definition load (bin_path : string) (l : string * nat) : result Project :=
  if String.eqb bin_path "missing" then Raise (EngineError "no such file")
  else Ok Toy.data_bss.

End Sample.

(** ** An engine that refuses what angr refuses *)

Module Strict.

Definition has_bare_breakpoint (s : SimState) : bool :=
  existsb (fun bp => match action bp with None => true | Some _ => false end)
          (inspect s).

(** [state.solver.add] takes claripy ASTs, not [Constraint] objects, and a
    breakpoint without an action stops the step. *)
#[export] Instance angr : Angr :=
  {| is_true := Toy.toy_is_true;
     solver_add := fun st c => Raise (EngineError "not a claripy AST");
     solver_eval := Toy.toy_eval;
     solver_min := Toy.toy_min;
     solver_max := Toy.toy_max;
     getattr_state := Toy.toy_getattr_state;
     getattr_regs := Toy.toy_getattr_regs;
     blank_state := Toy.toy_blank_state;
     CFGFast := Toy.toy_CFGFast;
     step := fun p sm =>
       if existsb has_bare_breakpoint (active sm)
       then Raise (EngineError "breakpoint without action")
       else Ok (Toy.toy_step p sm);
     explore := Toy.toy_explore |}.

Definition record : Constraint :=
  {| type := BranchTrue; constraints := [BoolS "cond"]; next_addr := Some 4104 |}.

End Strict.

(** ** Python helpers *)

Section PythonFacts.

Lemma result_bind_Ok {A B} (f : A -> result B) (a : A) : Ok a ≫= f = f a.
Proof. reflexivity. Qed.

Lemma result_bind_Raise {A B} (f : A -> result B) (e : exn) : Raise e ≫= f = Raise e.
Proof. reflexivity. Qed.

Lemma hex_inj (a b : Z) : hex a = hex b -> a = b.
Proof.
  unfold hex. intros E.
  apply (f_equal HexString.to_Z) in E.
  by rewrite !HexString.to_Z_of_Z in E.
Qed.

Lemma string_app_inj (p x y : string) : p +:+ x = p +:+ y -> x = y.
Proof.
  induction p as [|c p IH]; simpl; [done|].
  intros E. injection E as E. by apply IH.
Qed.

Lemma range_nonzero (lo hi step : Z) :
  step <> 0 -> range lo hi step = Ok (range_items lo hi step).
Proof.
  intros Hs. unfold range.
  destruct (Z.eqb_spec step 0); [lia | done].
Qed.

(** For a positive step, the items of a range are the [lo + k*step] below [hi]. *)
Lemma elem_of_range_items (lo hi step a : Z) :
  0 < step ->
  In a (range_items lo hi step) <-> (lo <= a < hi /\ (a - lo) mod step = 0).
Proof.
  intros Hs. unfold range_items, range_length.
  rewrite in_map_iff.
  destruct (Z.ltb_spec 0 step) as [_|]; [|lia].
  split.
  - intros (i & <- & Hi). apply in_seq in Hi.
    destruct (Z.ltb_spec lo hi) as [Hlt|]; [|simpl in Hi; lia].
    assert (Hq : 0 <= (hi - 1 - lo) / step) by (apply Z.div_pos; lia).
    assert (Hle : Z.of_nat i <= (hi - 1 - lo) / step) by lia.
    assert (Hm : step * ((hi - 1 - lo) / step) <= hi - 1 - lo)
      by (apply Z.mul_div_le; lia).
    split; [nia|].
    replace (lo + Z.of_nat i * step - lo) with (Z.of_nat i * step) by lia.
    apply Z_mod_mult.
  - intros [[Hlo Hhi] Hmod].
    destruct (Z.ltb_spec lo hi) as [_|]; [|lia].
    assert (Hex : a - lo = step * ((a - lo) / step))
      by (apply Z_div_exact_full_2; lia).
    assert (Hq : 0 <= (a - lo) / step) by (apply Z.div_pos; lia).
    assert (Hmono : (a - lo) / step <= (hi - 1 - lo) / step)
      by (apply Z.div_le_mono; lia).
    exists (Z.to_nat ((a - lo) / step)). split; [lia|].
    apply in_seq. lia.
Qed.

Example hex_255 : hex 255 = "0xff"%string.
Proof. reflexivity. Qed.

Example hex_0 : hex 0 = "0x0"%string.
Proof. reflexivity. Qed.

Example hex_neg : hex (-4096) = "-0x1000"%string.
Proof. reflexivity. Qed.

Example range_up : range 8192 8202 4 = Ok [8192; 8196; 8200].
Proof. reflexivity. Qed.

Example range_down : range 10 2 (-4) = Ok [10; 6].
Proof. reflexivity. Qed.

Example range_empty : range 5 5 1 = Ok [].
Proof. reflexivity. Qed.

Example range_zero_step :
  range 0 8 0 = Raise (ValueError "range() arg 3 must not be zero").
Proof. reflexivity. Qed.

End PythonFacts.

(** ** Constraint records and [solve_opt] *)

Section Records.
Context `{angr : Angr}.

Lemma filter_tautology_free (l : list Bool) :
  tautology_free (List.filter (fun b => negb (is_true b)) l).
Proof.
  unfold tautology_free. apply List.Forall_forall. intros b Hb.
  apply List.filter_In in Hb as [_ Hb].
  by destruct (is_true b).
Qed.

(** A fresh record holds no tautology, whichever form the argument has. *)
Lemma Constraint_init_tautology_free t cs next :
  tautology_free (constraints (Constraint_init t cs next)).
Proof. apply filter_tautology_free. Qed.

(** Appending keeps the record free of tautologies exactly when the appended
    list is. *)
Lemma add_constraints_tautology_free (self : Constraint) (l : list Bool) :
  tautology_free (constraints self) ->
  (tautology_free (constraints (add_constraints self l)) <-> tautology_free l).
Proof.
  unfold tautology_free. simpl. intros Hs.
  rewrite List.Forall_app. tauto.
Qed.

Lemma add_constraints_keeps (self : Constraint) (l : list Bool) (b : Bool) :
  In b l -> In b (constraints (add_constraints self l)).
Proof. simpl. intros Hb. apply in_or_app. by right. Qed.

(** C7. [solve_opt] never raises: it returns the solver's evaluation of the
    state attribute when both the attribute lookup and the evaluation
    succeed, and the caller's default when either of them raises. *)
Theorem solve_opt_evaluation_or_default (state : SimState) (to_solve : string)
    (default : Any) :
  (exists a v, getattr_state state to_solve = Ok a /\
               solver_eval state a = Ok v /\
               solve_opt state to_solve default = PyInt v) \/
  (((exists e, getattr_state state to_solve = Raise e) \/
    (exists a e, getattr_state state to_solve = Ok a /\
                 solver_eval state a = Raise e)) /\
   solve_opt state to_solve default = default).
Proof.
  unfold solve_opt.
  destruct (getattr_state state to_solve) as [a|e] eqn:Ha.
  - rewrite result_bind_Ok.
    destruct (solver_eval state a) as [v|e] eqn:Hv.
    + left. by exists a, v.
    + right. split; [right; by exists a, e | done].
  - right. split; [left; by exists e | done].
Qed.

End Records.

Example solve_opt_toy :
  solve_opt (angr := Toy.toy) Toy.s0 "addr" PyNone = PyInt 4096 /\
  solve_opt (angr := Toy.toy) Toy.s0 "history" PyNone = PyNone.
Proof. split; reflexivity. Qed.

(** C2. The invariant of the Constraint Record breaks on append:
    [add_constraints] extends the list without the filter of the
    constructor, so a tautology appended to a fresh, empty record is stored. *)
Theorem add_constraints_stores_tautology :
  let c := Constraint_init (angr := Toy.toy) Unknown (inr []) None in
  constraints c = [] /\
  is_true (Angr := Toy.toy) (BoolV true) = true /\
  constraints (add_constraints c [BoolV true]) = [BoolV true] /\
  ~ tautology_free (angr := Toy.toy) (constraints (add_constraints c [BoolV true])).
Proof.
  repeat split. intros Hfree.
  apply List.Forall_inv in Hfree. discriminate Hfree.
Qed.

(** ** The register range synthesizer *)

Section RegConstraints.
Context `{angr : Angr}.

Lemma elem_of_block_regs_written (bb : BasicBlock) (r : string) :
  r ∈ block_regs_written bb <->
  exists i, i ∈ instructions bb /\ r ∈ regs_written i.
Proof.
  unfold block_regs_written.
  assert (G : forall (l : list Instruction) (acc : gset string),
    r ∈ foldl (fun acc i => acc ∪ list_to_set (regs_written i)) acc l <->
    r ∈ acc \/ exists i, i ∈ l /\ r ∈ regs_written i).
  { induction l as [|i l IH]; intros acc; simpl.
    - split; [by left | intros [?|(i & Hi & _)]; [done | by apply elem_of_nil in Hi]].
    - rewrite IH, elem_of_union, elem_of_list_to_set. split.
      + intros [[?|?]|(j & Hj & ?)]; [by left | right; exists i | right; exists j];
          (split; [|done]); [by left | by right].
      + intros [?|(j & Hj & ?)]; [by left; left|].
        apply elem_of_cons in Hj as [->|Hj]; [by left; right | right; by exists j]. }
  rewrite G. split; [intros [Hr|?]; [by apply elem_of_empty in Hr | done] | by right].
Qed.

Lemma reg_constraints_step_Ok (state : SimState) (out : list Bool) (r : string)
    (q : BV * Z * Z) :
  queried state r q ->
  reg_constraints_step state out r = Ok (out ++ range_predicates q.1.1 q.1.2 q.2).
Proof.
  destruct q as [[reg mn] mx]. intros (Hr & Hmin & Hmax). simpl in *.
  unfold reg_constraints_step, range_predicates.
  rewrite Hr, result_bind_Ok, Hmin, result_bind_Ok, Hmax, result_bind_Ok.
  repeat case_decide; try done.
  by rewrite <- List.app_assoc.
Qed.

Lemma reg_constraints_step_Raise (state : SimState) (out : list Bool) (r : string)
    (reg : BV) (e : exn) :
  getattr_regs state r = Ok reg ->
  solver_min state reg = Raise e \/ solver_max state reg = Raise e ->
  exists e', reg_constraints_step state out r = Raise e'.
Proof.
  intros Hr Hq. unfold reg_constraints_step.
  rewrite Hr, result_bind_Ok.
  destruct (solver_min state reg) as [mn|e1]; [|by exists e1].
  rewrite result_bind_Ok.
  destruct Hq as [Hq|Hq]; [done|].
  rewrite Hq. by exists e.
Qed.

Lemma reg_constraints_loop_Ok (state : SimState) (regs : list string) :
  (forall r, r ∈ regs -> exists q, queried state r q) ->
  exists qs, Forall2 (queried state) regs qs /\
    forall out, reg_constraints_loop state regs out =
      Ok (out ++ flat_map (fun q => range_predicates q.1.1 q.1.2 q.2) qs).
Proof.
  induction regs as [|r regs IH]; intros Hq.
  - exists []. split; [constructor|]. intros out. simpl. by rewrite List.app_nil_r.
  - destruct (Hq r) as [q Hr]; [by left|].
    destruct IH as (qs & Hqs & Hloop); [intros r' ?; apply Hq; by right|].
    exists (q :: qs). split; [by constructor|].
    intros out. simpl.
    rewrite (reg_constraints_step_Ok _ _ _ _ Hr), result_bind_Ok, Hloop.
    by rewrite <- List.app_assoc.
Qed.

Lemma reg_constraints_loop_Raise (state : SimState) (regs : list string) (r : string)
    (reg : BV) (e : exn) :
  r ∈ regs ->
  getattr_regs state r = Ok reg ->
  solver_min state reg = Raise e \/ solver_max state reg = Raise e ->
  forall out, exists e', reg_constraints_loop state regs out = Raise e'.
Proof.
  intros Hin Hr Hq.
  induction regs as [|r' regs IH]; [by apply elem_of_nil in Hin|].
  intros out. simpl.
  destruct (reg_constraints_step state out r') as [out'|e1] eqn:Hstep;
    [|by exists e1].
  rewrite result_bind_Ok.
  apply elem_of_cons in Hin as [->|Hin]; [|by apply IH].
  destruct (reg_constraints_step_Raise state out r' reg e Hr Hq) as [e' He'].
  congruence.
Qed.

(** C3, as the code has it.  A solver [min] or [max] query that raises for
    a register written in the block is not handled in [reg_constraints]: the
    call raises, and no list, default or other, is returned. *)
Theorem reg_constraints_propagates (state : SimState) (bb : BasicBlock)
    (i : Instruction) (r : string) (reg : BV) (e : exn) :
  i ∈ instructions bb ->
  r ∈ regs_written i ->
  getattr_regs state r = Ok reg ->
  solver_min state reg = Raise e \/ solver_max state reg = Raise e ->
  exists e', reg_constraints state bb = Raise e'.
Proof.
  intros Hi Hr Hreg Hq.
  assert (Hin : r ∈ elements (block_regs_written bb)).
  { apply elem_of_elements, elem_of_block_regs_written. by exists i. }
  destruct (reg_constraints_loop_Raise state _ r reg e Hin Hreg Hq []) as [e' He'].
  exists e'. unfold reg_constraints, reg_constraints_out. by rewrite He'.
Qed.

(** C4. When the queries for the registers written in the block succeed,
    [reg_constraints] visits each written register once and emits for it the
    equality [reg == min] if the minimum equals the maximum, else the lower
    bound [min <= reg] followed, only if the maximum is below [2^32], by the
    upper bound [reg < max]; it returns what it emitted, tautologies dropped. *)
Theorem reg_constraints_emits_ranges (state : SimState) (bb : BasicBlock) :
  (forall i r, i ∈ instructions bb -> r ∈ regs_written i ->
     exists q, queried state r q) ->
  exists regs qs,
    NoDup regs /\
    (forall r, r ∈ regs <-> exists i, i ∈ instructions bb /\ r ∈ regs_written i) /\
    Forall2 (queried state) regs qs /\
    let emitted :=
      flat_map (fun q : BV * Z * Z =>
        let '(reg, min, max) := q in
        if decide (min = max) then [Eq reg min]
        else if decide (max < 2 ^ 32) then [Le min reg; Lt reg max]
        else [Le min reg]) qs in
    reg_constraints_out state bb = Ok emitted /\
    reg_constraints state bb = Ok (List.filter (fun x => negb (is_true x)) emitted).
Proof.
  intros Hq.
  destruct (reg_constraints_loop_Ok state (elements (block_regs_written bb)))
    as (qs & Hqs & Hloop).
  { intros r Hr. apply elem_of_elements, elem_of_block_regs_written in Hr.
    destruct Hr as (i & Hi & Hr). by apply (Hq i). }
  exists (elements (block_regs_written bb)), qs.
  split; [apply NoDup_elements|].
  split; [intros r; by rewrite elem_of_elements, elem_of_block_regs_written|].
  split; [done|].
  assert (Hsame : forall l : list (BV * Z * Z),
    flat_map (fun q => range_predicates q.1.1 q.1.2 q.2) l =
    flat_map (fun q : BV * Z * Z =>
      let '(reg, min, max) := q in
      if decide (min = max) then [Eq reg min]
      else if decide (max < 2 ^ 32) then [Le min reg; Lt reg max]
      else [Le min reg]) l).
  { intros l. apply List.flat_map_ext. by intros [[reg mn] mx]. }
  cbv zeta. rewrite <- Hsame.
  unfold reg_constraints, reg_constraints_out.
  rewrite Hloop. by split.
Qed.

End RegConstraints.

(** The solver fails on the register [t0] of the small engine, and
    [reg_constraints] fails with it instead of returning a list. *)
Lemma reg_constraints_raises_on_failed_query :
  let bb := Toy.block ["a0"; "t0"; "sp"]%string in
  getattr_regs (Angr := Toy.toy) Toy.s0 "t0" = Ok (BVS "unsat" 32) /\
  solver_min (Angr := Toy.toy) Toy.s0 (BVS "unsat" 32) = Raise (EngineError "unsat") /\
  reg_constraints (angr := Toy.toy) Toy.s0 bb = Raise (EngineError "unsat") /\
  ~ exists l, reg_constraints (angr := Toy.toy) Toy.s0 bb = Ok l.
Proof.
  assert (E : reg_constraints (angr := Toy.toy) Toy.s0
                (Toy.block ["a0"; "t0"; "sp"]%string) = Raise (EngineError "unsat"))
    by (vm_compute; reflexivity).
  cbv zeta. repeat split; try done.
  intros [l Hl]. rewrite E in Hl. discriminate Hl.
Qed.

(** On the small engine: [sp] holds a constant, so its equality is emitted
    and then dropped as a tautology; [a0] gets both bounds, [a1] the lower one. *)
Example reg_constraints_toy :
  reg_constraints_out (angr := Toy.toy) Toy.s0 (Toy.block ["a0"; "a1"; "sp"]%string) =
    Ok [Eq (BVV 4096 32) 4096; Le 0 (BVS "a1" 64);
        Le 0 (BVS "a0" 32); Lt (BVS "a0" 32) (2 ^ 32 - 1)] /\
  reg_constraints (angr := Toy.toy) Toy.s0 (Toy.block ["a0"; "a1"; "sp"]%string) =
    Ok [Le 0 (BVS "a1" 64); Le 0 (BVS "a0" 32); Lt (BVS "a0" 32) (2 ^ 32 - 1)].
Proof. split; vm_compute; reflexivity. Qed.

Lemma reg_constraints_propagates_witness :
  exists e',
    reg_constraints (angr := Toy.toy) Toy.s0 (Toy.block ["a0"; "t0"]%string) = Raise e'.
Proof.
  apply (reg_constraints_propagates (angr := Toy.toy) Toy.s0
           (Toy.block ["a0"; "t0"]%string) {| regs_written := ["a0"; "t0"]%string |}
           "t0" (BVS "unsat" 32) (EngineError "unsat")).
  - simpl. left.
  - simpl. right. left.
  - reflexivity.
  - left. reflexivity.
Defined.

Lemma reg_constraints_emits_ranges_witness :
  exists regs qs,
    NoDup regs /\
    (forall r, r ∈ regs <->
       exists i, i ∈ [{| regs_written := ["a0"; "a1"; "sp"]%string |}] /\
                 r ∈ regs_written i) /\
    Forall2 (queried (angr := Toy.toy) Toy.s0) regs qs /\
    let emitted :=
      flat_map (fun q : BV * Z * Z =>
        let '(reg, min, max) := q in
        if decide (min = max) then [Eq reg min]
        else if decide (max < 2 ^ 32) then [Le min reg; Lt reg max]
        else [Le min reg]) qs in
    reg_constraints_out (angr := Toy.toy) Toy.s0
      (Toy.block ["a0"; "a1"; "sp"]%string) = Ok emitted /\
    reg_constraints (angr := Toy.toy) Toy.s0
      (Toy.block ["a0"; "a1"; "sp"]%string) =
      Ok (List.filter (fun x => negb (is_true (Angr := Toy.toy) x)) emitted).
Proof.
  apply (reg_constraints_emits_ranges (angr := Toy.toy) Toy.s0
           (Toy.block ["a0"; "a1"; "sp"]%string)).
  intros i r Hi Hr. simpl in Hi.
  apply list_elem_of_singleton in Hi. subst i. simpl in Hr.
  apply elem_of_cons in Hr as [->|Hr]; [by exists (BVS "a0" 32, 0, 2 ^ 32 - 1)|].
  apply elem_of_cons in Hr as [->|Hr]; [by exists (BVS "a1" 64, 0, 2 ^ 64 - 1)|].
  apply list_elem_of_singleton in Hr. subst r. by exists (BVV 4096 32, 4096, 4096).
Defined.

(** ** The memory symbolizer *)

Section MemorySymbolizer.

Lemma M_bind_Ok {S A B} (m : M S A) (f : A -> M S B) (s s' : S) (a : A) :
  m s = (Ok a, s') -> (m ≫= f) s = f a s'.
Proof. intros E. unfold mbind, M_bind. by rewrite E. Qed.

Lemma M_bind_Raise {S A B} (m : M S A) (f : A -> M S B) (s s' : S) (e : exn) :
  m s = (Raise e, s') -> (m ≫= f) s = (Raise e, s').
Proof. intros E. unfold mbind, M_bind. by rewrite E. Qed.

Lemma stored_nil (st : SimState) : stored [] st = st.
Proof. destruct st. unfold stored. simpl. by rewrite List.app_nil_r. Qed.

Lemma stored_app (new1 new2 : list (Z * BV)) (st : SimState) :
  stored new2 (stored new1 st) = stored (new1 ++ new2) st.
Proof. unfold stored. simpl. by rewrite List.app_assoc. Qed.

Lemma solver_BVS_Ok (name : string) (size : Z) (st : SimState) :
  0 <= size -> solver_BVS name size st = (Ok (BVS name size), st).
Proof.
  intros Hs. unfold solver_BVS.
  destruct (Z.ltb_spec size 0); [lia | reflexivity].
Qed.

Lemma solver_BVS_Raise (name : string) (size : Z) (st : SimState) :
  size < 0 -> solver_BVS name size st = (Raise (EngineError "negative width"), st).
Proof.
  intros Hs. unfold solver_BVS.
  destruct (Z.ltb_spec size 0); [reflexivity | lia].
Qed.

(** One loop of the symbolizer appends its chunks, in the order of the range. *)
Lemma for_store_chunks (prefix : string) (chunk_size : Z) (addrs : list Z)
    (st : SimState) :
  0 <= chunk_size ->
  for_ addrs (fun addr =>
    let sym_name := prefix +:+ hex addr in
    symbolic_value ← solver_BVS sym_name (chunk_size * 8);
    memory_store addr symbolic_value) st
  = (Ok tt, stored (symbolic_chunks prefix chunk_size addrs) st).
Proof.
  intros Hc. revert st. induction addrs as [|a addrs IH]; intros st.
  - simpl. by rewrite stored_nil.
  - simpl. erewrite M_bind_Ok.
    2:{ erewrite M_bind_Ok; [|apply solver_BVS_Ok; lia]. reflexivity. }
    rewrite IH. f_equal. unfold stored. simpl. by rewrite <- List.app_assoc.
Qed.

(** With a negative chunk size the first turn of a loop fails on [BVS],
    before its store. *)
Lemma for_store_negative (prefix : string) (chunk_size : Z) (addrs : list Z)
    (st : SimState) :
  chunk_size < 0 ->
  for_ addrs (fun addr =>
    let sym_name := prefix +:+ hex addr in
    symbolic_value ← solver_BVS sym_name (chunk_size * 8);
    memory_store addr symbolic_value) st
  = (match addrs with
     | [] => Ok tt
     | _ :: _ => Raise (EngineError "negative width")
     end, st).
Proof.
  intros Hc. destruct addrs as [|a addrs]; [reflexivity|].
  simpl. erewrite M_bind_Raise; [reflexivity|].
  erewrite M_bind_Raise; [reflexivity|]. apply solver_BVS_Raise. lia.
Qed.

Lemma make_static_memory_symbolic_Ok (project : Project) (state : SimState)
    (chunk_size : Z) (data bss : Section_) :
  sections_map project !! ".data"%string = Some data ->
  sections_map project !! ".bss"%string = Some bss ->
  0 < chunk_size ->
  let state' :=
    stored (symbolic_chunks "data_" chunk_size
              (range_items (min_addr data) (max_addr data) chunk_size) ++
            symbolic_chunks "bss_" chunk_size
              (range_items (min_addr bss) (max_addr bss) chunk_size)) state in
  make_static_memory_symbolic project state chunk_size = (Ok state', state').
Proof.
  intros Hd Hb Hc. unfold make_static_memory_symbolic, getitem.
  rewrite Hd. erewrite M_bind_Ok; [|reflexivity].
  rewrite Hb. erewrite M_bind_Ok; [|reflexivity].
  rewrite !range_nonzero by lia. erewrite M_bind_Ok; [|reflexivity].
  erewrite M_bind_Ok; [|apply for_store_chunks; lia].
  erewrite M_bind_Ok; [|reflexivity].
  erewrite M_bind_Ok; [|apply for_store_chunks; lia].
  unfold get. by rewrite stored_app.
Qed.

(** With a negative chunk size nothing is ever stored: the call returns the
    state as it was when both ranges are empty, and raises otherwise. *)
Lemma make_static_memory_symbolic_negative (project : Project) (state : SimState)
    (chunk_size : Z) (data bss : Section_) :
  sections_map project !! ".data"%string = Some data ->
  sections_map project !! ".bss"%string = Some bss ->
  chunk_size < 0 ->
  make_static_memory_symbolic project state chunk_size =
    (match range_items (min_addr data) (max_addr data) chunk_size,
           range_items (min_addr bss) (max_addr bss) chunk_size with
     | [], [] => Ok state
     | _, _ => Raise (EngineError "negative width")
     end, state).
Proof.
  intros Hd Hb Hc. unfold make_static_memory_symbolic, getitem.
  rewrite Hd. erewrite M_bind_Ok; [|reflexivity].
  rewrite Hb. erewrite M_bind_Ok; [|reflexivity].
  rewrite !range_nonzero by lia. erewrite M_bind_Ok; [|reflexivity].
  destruct (range_items (min_addr data) (max_addr data) chunk_size) as [|a l].
  - erewrite M_bind_Ok; [|reflexivity].
    erewrite M_bind_Ok; [|reflexivity].
    destruct (range_items (min_addr bss) (max_addr bss) chunk_size) as [|b l].
    + reflexivity.
    + erewrite M_bind_Raise; [|exact (for_store_negative _ _ (_ :: _) _ Hc)].
      reflexivity.
  - erewrite M_bind_Raise; [|exact (for_store_negative _ _ (_ :: _) _ Hc)].
    reflexivity.
Qed.

Lemma make_static_memory_symbolic_KeyError (project : Project) (state : SimState)
    (chunk_size : Z) :
  sections_map project !! ".data"%string = None \/
  sections_map project !! ".bss"%string = None ->
  exists key, (key = ".data"%string \/ key = ".bss"%string) /\
    sections_map project !! key = None /\
    make_static_memory_symbolic project state chunk_size = (Raise (KeyError key), state).
Proof.
  intros Hmiss. unfold make_static_memory_symbolic, getitem.
  destruct (sections_map project !! ".data"%string) as [data|] eqn:Hd.
  - destruct Hmiss as [?|Hb]; [done|].
    exists ".bss"%string. rewrite Hb. by repeat split; [right|..].
  - exists ".data"%string. by repeat split; [left|..].
Qed.

Lemma in_symbolic_chunks (prefix : string) (chunk_size : Z) (addrs : list Z)
    (a : Z) (v : BV) :
  In (a, v) (symbolic_chunks prefix chunk_size addrs) <->
  In a addrs /\ v = BVS (prefix +:+ hex a) (chunk_size * 8).
Proof.
  unfold symbolic_chunks. rewrite in_map_iff. split.
  - intros (a' & E & Ha). injection E as -> <-. done.
  - intros [Ha ->]. by exists a.
Qed.

(** Names built from distinct addresses differ, whichever prefixes they carry. *)
Lemma chunk_names_distinct (a1 a2 : Z) (n1 n2 : string) :
  n1 = "data_" +:+ hex a1 \/ n1 = "bss_" +:+ hex a1 ->
  n2 = "data_" +:+ hex a2 \/ n2 = "bss_" +:+ hex a2 ->
  a1 <> a2 -> n1 <> n2.
Proof.
  intros [->| ->] [->| ->] Hne E; try discriminate E;
    apply string_app_inj, hex_inj in E; done.
Qed.

(** C8, for a positive chunk size.  With both sections present, the
    symbolizer returns the very state it mutated; that state has received,
    after what its memory held, one store per address [min_addr + k*chunk_size]
    below [max_addr] of [.data] and then of [.bss], each of a symbol of
    [chunk_size*8] bits named [data_<hex address>] or [bss_<hex address>];
    symbols stored at distinct addresses have distinct names. *)
Theorem make_static_memory_symbolic_stores (project : Project) (state : SimState)
    (chunk_size : Z) (data bss : Section_) :
  sections_map project !! ".data"%string = Some data ->
  sections_map project !! ".bss"%string = Some bss ->
  0 < chunk_size ->
  exists state' new,
    make_static_memory_symbolic project state chunk_size = (Ok state', state') /\
    memory state' = memory state ++ new /\
    ip state' = ip state /\
    solver_constraints state' = solver_constraints state /\
    inspect state' = inspect state /\
    (forall a, min_addr data <= a < max_addr data ->
               (a - min_addr data) mod chunk_size = 0 ->
               In (a, BVS ("data_" +:+ hex a) (chunk_size * 8)) new) /\
    (forall a, min_addr bss <= a < max_addr bss ->
               (a - min_addr bss) mod chunk_size = 0 ->
               In (a, BVS ("bss_" +:+ hex a) (chunk_size * 8)) new) /\
    (forall a v, In (a, v) new ->
       (min_addr data <= a < max_addr data /\
        (a - min_addr data) mod chunk_size = 0 /\
        v = BVS ("data_" +:+ hex a) (chunk_size * 8)) \/
       (min_addr bss <= a < max_addr bss /\
        (a - min_addr bss) mod chunk_size = 0 /\
        v = BVS ("bss_" +:+ hex a) (chunk_size * 8))) /\
    (forall a1 n1 w1 a2 n2 w2,
       In (a1, BVS n1 w1) new -> In (a2, BVS n2 w2) new ->
       a1 <> a2 -> n1 <> n2).
Proof.
  intros Hd Hb Hc.
  pose proof (make_static_memory_symbolic_Ok project state chunk_size data bss
                Hd Hb ltac:(lia)) as Hrun.
  cbv zeta in Hrun.
  set (new := symbolic_chunks "data_" chunk_size
                (range_items (min_addr data) (max_addr data) chunk_size) ++
              symbolic_chunks "bss_" chunk_size
                (range_items (min_addr bss) (max_addr bss) chunk_size)) in *.
  assert (Hnew : forall a v, In (a, v) new ->
    (min_addr data <= a < max_addr data /\
     (a - min_addr data) mod chunk_size = 0 /\
     v = BVS ("data_" +:+ hex a) (chunk_size * 8)) \/
    (min_addr bss <= a < max_addr bss /\
     (a - min_addr bss) mod chunk_size = 0 /\
     v = BVS ("bss_" +:+ hex a) (chunk_size * 8))).
  { intros a v Hin. unfold new in Hin.
    apply in_app_or in Hin as [Hin|Hin];
      apply in_symbolic_chunks in Hin as [Ha ->];
      apply elem_of_range_items in Ha as [? ?]; [|lia| |lia]; [left|right]; done. }
  exists (stored new state), new.
  repeat split; try done.
  - intros a Ha Hmod. unfold new. apply in_or_app. left.
    apply in_symbolic_chunks. split; [|done]. by apply elem_of_range_items.
  - intros a Ha Hmod. unfold new. apply in_or_app. right.
    apply in_symbolic_chunks. split; [|done]. by apply elem_of_range_items.
  - intros a1 n1 w1 a2 n2 w2 H1 H2.
    apply Hnew in H1, H2.
    apply chunk_names_distinct.
    + destruct H1 as [(_ & _ & E)|(_ & _ & E)]; injection E as -> _; auto.
    + destruct H2 as [(_ & _ & E)|(_ & _ & E)]; injection E as -> _; auto.
Qed.

(** C10. When [.data] or [.bss] is missing from the section map, the
    symbolizer raises the [KeyError] of the failed lookup, whatever the chunk
    size; both lookups come before the first store, so the state, and its
    memory with it, is as it was. *)
Theorem make_static_memory_symbolic_missing_section (project : Project)
    (state : SimState) (chunk_size : Z) :
  sections_map project !! ".data"%string = None \/
  sections_map project !! ".bss"%string = None ->
  exists key,
    (key = ".data"%string \/ key = ".bss"%string) /\
    sections_map project !! key = None /\
    fst (make_static_memory_symbolic project state chunk_size) = Raise (KeyError key) /\
    snd (make_static_memory_symbolic project state chunk_size) = state /\
    memory (snd (make_static_memory_symbolic project state chunk_size)) = memory state.
Proof.
  intros Hmiss.
  destruct (make_static_memory_symbolic_KeyError project state chunk_size Hmiss)
    as (key & Hkey & Hnone & Hrun).
  exists key. rewrite Hrun. by repeat split.
Qed.

End MemorySymbolizer.

(** A chunk size of zero is refused by [range] before anything is stored. *)
Lemma make_static_memory_symbolic_zero_chunk :
  make_static_memory_symbolic Toy.data_bss Toy.s0 0 =
    (Raise (ValueError "range() arg 3 must not be zero"), Toy.s0) /\
  ~ exists state', make_static_memory_symbolic Toy.data_bss Toy.s0 0 = (Ok state', state').
Proof.
  assert (E : make_static_memory_symbolic Toy.data_bss Toy.s0 0 =
                (Raise (ValueError "range() arg 3 must not be zero"), Toy.s0))
    by (vm_compute; reflexivity).
  split; [exact E|].
  intros [state' Hs]. rewrite E in Hs. discriminate Hs.
Qed.

Example make_static_memory_symbolic_toy :
  make_static_memory_symbolic Toy.data_bss Toy.s0 4 =
    let state' :=
      stored [(8192, BVS "data_0x2000" 32); (8196, BVS "data_0x2004" 32);
              (8200, BVS "data_0x2008" 32); (12288, BVS "bss_0x3000" 32);
              (12292, BVS "bss_0x3004" 32)] Toy.s0 in
    (Ok state', state').
Proof. vm_compute; reflexivity. Qed.

Lemma make_static_memory_symbolic_stores_witness :
  exists state' new,
    make_static_memory_symbolic Toy.data_bss Toy.s0 4 = (Ok state', state') /\
    memory state' = memory Toy.s0 ++ new /\
    In (8196, BVS "data_0x2004" 32) new /\
    In (12292, BVS "bss_0x3004" 32) new.
Proof.
  destruct (make_static_memory_symbolic_stores Toy.data_bss Toy.s0 4
              {| min_addr := 8192; max_addr := 8202 |}
              {| min_addr := 12288; max_addr := 12296 |})
    as (state' & new & Hrun & Hmem & _ & _ & _ & Hdata & Hbss & _).
  - vm_compute; reflexivity.
  - vm_compute; reflexivity.
  - lia.
  - exists state', new. repeat split; try done.
    + apply (Hdata 8196); simpl; [lia | reflexivity].
    + apply (Hbss 12292); simpl; [lia | reflexivity].
Defined.

Lemma make_static_memory_symbolic_missing_section_witness :
  exists key,
    (key = ".data"%string \/ key = ".bss"%string) /\
    sections_map Toy.data_only !! key = None /\
    fst (make_static_memory_symbolic Toy.data_only Toy.s0 4) = Raise (KeyError key) /\
    snd (make_static_memory_symbolic Toy.data_only Toy.s0 4) = Toy.s0 /\
    memory (snd (make_static_memory_symbolic Toy.data_only Toy.s0 4)) = memory Toy.s0.
Proof.
  apply (make_static_memory_symbolic_missing_section Toy.data_only Toy.s0 4).
  right. vm_compute; reflexivity.
Defined.

(** ** The executors *)

Section Executors.
Context `{angr : Angr}.

(** C5, as the code has it.  [exec_bb] never produces a record: what it
    returns is the empty list, for every engine and so whatever stashes the
    step leaves.  It returns when every [state.solver.add] on the input
    constraints and [sm.step()] return; an exception of either is not caught
    and is the outcome of the call. *)
Theorem exec_bb_returns_empty (p : Project) (bb : BasicBlock)
    (input_constraints : list Constraint) :
  let added := solver_add_all (blank_state p (start_vaddr bb)) input_constraints in
  let sm_of state :=
    simgr (inspect_b "reg_write" BP_AFTER None
             (inspect_b "mem_write" BP_AFTER None state)) true in
  (forall records, exec_bb p bb input_constraints = Ok records -> records = []) /\
  (forall state sm', added = Ok state -> step p (sm_of state) = Ok sm' ->
     exec_bb p bb input_constraints = Ok []) /\
  (forall e, added = Raise e -> exec_bb p bb input_constraints = Raise e) /\
  (forall state e, added = Ok state -> step p (sm_of state) = Raise e ->
     exec_bb p bb input_constraints = Raise e).
Proof.
  cbv zeta. unfold exec_bb.
  destruct (solver_add_all _ _) as [state|e] eqn:Hadd.
  - rewrite result_bind_Ok. repeat split.
    + intros records.
      destruct (step p _) as [sm'|e]; [by intros [= <-] | done].
    + intros state' sm' [= <-] Hstep. by rewrite Hstep.
    + done.
    + intros state' e [= <-] Hstep. by rewrite Hstep.
  - repeat split; try done. by intros e' [= <-].
Qed.

(** C6, for a binary that has both sections.  When the function's name is
    not in the recovered graph, [exec_func] does not raise: it prints the
    lookup failure and returns the empty list. *)
Theorem exec_func_unknown_function (p : Project) (func : Function)
    (out : list string) (data bss : Section_) :
  sections_map p !! ".data"%string = Some data ->
  sections_map p !! ".bss"%string = Some bss ->
  kb_functions (CFGFast p) !! name func = None ->
  exec_func p func out = (Ok [], out ++ ["Can't find function " +:+ name func]).
Proof.
  intros Hd Hb Hf. unfold exec_func.
  pose proof (make_static_memory_symbolic_Ok p (blank_state p (entry_point func)) 4
                data bss Hd Hb ltac:(lia)) as Hrun.
  cbv zeta in Hrun. cbv zeta. rewrite Hrun, Hf. reflexivity.
Qed.

(** What [exec_func] hands to the engine, for a binary that has both
    sections and a function the recovered graph knows: the symbolized seed
    state with its two breakpoints, the techniques [LoopSeer] of bound 5 and
    [StashMonitor], the return addresses as targets and [num_find] 100; it
    returns the constraint list of each state the engine reports as found.
    Whether and when the exploration ends is the engine's affair and is not
    modelled. *)
Theorem exec_func_explores_bounded (p : Project) (func : Function)
    (out : list string) (data bss : Section_) (f : KbFunction) :
  sections_map p !! ".data"%string = Some data ->
  sections_map p !! ".bss"%string = Some bss ->
  kb_functions (CFGFast p) !! name func = Some f ->
  exists seed,
    make_static_memory_symbolic p (blank_state p (entry_point func)) 4
      = (Ok seed, seed) /\
    let state :=
      inspect_b "reg_write" BP_AFTER (Some print_reg_write)
        (inspect_b "mem_write" BP_AFTER (Some print_mem_write) seed) in
    let sm :=
      {| active := [state]; found := []; deadended := []; unconstrained := [];
         pruned := []; unsat := []; save_unconstrained := false;
         techniques := [LoopSeer (CFGFast p) 5; StashMonitor true] |} in
    let run := explore p sm (return_addrs func) 100 in
    exec_func p func out =
      (Ok (map solver_constraints (found run.1)), out ++ run.2).
Proof.
  intros Hd Hb Hf. unfold exec_func.
  pose proof (make_static_memory_symbolic_Ok p (blank_state p (entry_point func)) 4
                data bss Hd Hb ltac:(lia)) as Hrun.
  cbv zeta in Hrun. eexists. split; [exact Hrun|].
  cbv zeta. rewrite Hrun, Hf.
  unfold mbind, M_bind, lift, sm_explore, use_technique, simgr, fst. simpl.
  by destruct (explore _ _ _ _).
Qed.

End Executors.

(** C1. On a block whose step leaves two active states, [exec_bb] returns
    no record at all, where the claim expects a [BranchTrue] and a
    [BranchFalse] record. *)
Theorem exec_bb_drops_two_way_branch :
  let p := Toy.data_bss in
  let bb := Toy.block ["a0"]%string in
  let state :=
    inspect_b "reg_write" BP_AFTER None
      (inspect_b "mem_write" BP_AFTER None
         (blank_state (Angr := Toy.toy) p (start_vaddr bb))) in
  exists sm,
    step (Angr := Toy.toy) p (simgr state true) = Ok sm /\
    length (active sm) = 2%nat /\
    exec_bb (angr := Toy.toy) p bb [] = Ok [].
Proof. eexists. repeat split. Qed.

(** On an engine whose solver takes only claripy ASTs and whose step stops at
    a breakpoint without action, [exec_bb] raises, on a non-empty list as on
    the empty one, instead of returning the empty list. *)
Lemma exec_bb_raises_with_the_engine :
  exec_bb (angr := Strict.angr) Toy.data_bss (Toy.block ["a0"]%string) [Strict.record]
    = Raise (EngineError "not a claripy AST") /\
  exec_bb (angr := Strict.angr) Toy.data_bss (Toy.block ["a0"]%string) []
    = Raise (EngineError "breakpoint without action") /\
  exec_bb (angr := Strict.angr) Toy.data_bss (Toy.block ["a0"]%string) [Strict.record]
    <> Ok [].
Proof. repeat split. discriminate. Qed.

(** On an engine that accepts both, the empty list is returned. *)
Example exec_bb_toy :
  exec_bb (angr := Toy.toy) Toy.data_bss (Toy.block ["a0"]%string) [Strict.record] = Ok [].
Proof. reflexivity. Qed.

(** On a binary without [.bss], [exec_func] raises before it looks the
    function up, although the name is absent from the recovered graph. *)
Lemma exec_func_raises_before_lookup :
  kb_functions (CFGFast (Angr := Toy.toy) Toy.data_only) !! name Toy.helper = None /\
  exec_func (angr := Toy.toy) Toy.data_only Toy.helper [] = (Raise (KeyError ".bss"), []).
Proof. split; vm_compute; reflexivity. Qed.

Lemma exec_func_unknown_function_witness :
  exec_func (angr := Toy.toy) Toy.data_bss Toy.helper [] =
    (Ok [], [] ++ ["Can't find function " +:+ name Toy.helper]).
Proof.
  apply (exec_func_unknown_function (angr := Toy.toy) Toy.data_bss Toy.helper []
           {| min_addr := 8192; max_addr := 8202 |}
           {| min_addr := 12288; max_addr := 12296 |});
    vm_compute; reflexivity.
Defined.

(** [exec_func] does not reach the exploration for every project and
    function: on a binary without [.bss] it raises, and for a name the graph
    lacks it returns the empty list although exploring from the seed state
    would find a state. *)
Lemma exec_func_without_exploration :
  exec_func (angr := Toy.toy) Toy.data_only Toy.main [] = (Raise (KeyError ".bss"), []) /\
  exec_func (angr := Toy.toy) Toy.data_bss Toy.helper [] =
    (Ok [], ["Can't find function helper"%string]) /\
  forall sm, length (found (explore (Angr := Toy.toy) Toy.data_bss sm
                              (return_addrs Toy.helper) 100).1) = length (active sm).
Proof.
  repeat split; try (vm_compute; reflexivity).
  intros sm. simpl. apply length_map.
Qed.

Lemma exec_func_explores_bounded_witness :
  exists seed,
    make_static_memory_symbolic Toy.data_bss
      (blank_state (Angr := Toy.toy) Toy.data_bss (entry_point Toy.main)) 4
      = (Ok seed, seed) /\
    let state :=
      inspect_b "reg_write" BP_AFTER (Some print_reg_write)
        (inspect_b "mem_write" BP_AFTER (Some print_mem_write) seed) in
    let sm :=
      {| active := [state]; found := []; deadended := []; unconstrained := [];
         pruned := []; unsat := []; save_unconstrained := false;
         techniques := [LoopSeer (CFGFast (Angr := Toy.toy) Toy.data_bss) 5;
                        StashMonitor true] |} in
    let run := explore (Angr := Toy.toy) Toy.data_bss sm (return_addrs Toy.main) 100 in
    exec_func (angr := Toy.toy) Toy.data_bss Toy.main [] =
      (Ok (map solver_constraints (found run.1)), [] ++ run.2).
Proof.
  apply (exec_func_explores_bounded (angr := Toy.toy) Toy.data_bss Toy.main []
           {| min_addr := 8192; max_addr := 8202 |}
           {| min_addr := 12288; max_addr := 12296 |}
           {| f_addr := 4096 |});
    vm_compute; reflexivity.
Defined.

(** * Further properties of the module *)

(** ** Constraint records *)

Section MoreRecords.
Context `{angr : Angr}.

Lemma filter_sublist {A} (f : A -> bool) (l : list A) : List.filter f l `sublist_of` l.
Proof.
  induction l as [|x l IH]; simpl; [constructor|].
  destruct (f x); by constructor.
Qed.


(** X1. A new record has the kind and the address it was given; its list is
    free of tautologies, is a subsequence of the predicates given (a single
    [Bool] counting as a list of one) and misses none of those that are not
    tautologies. *)
Theorem Constraint_init_keeps_nontautologies (t : ConstraintType)
    (cs : Bool + list Bool) (next : option Z) :
  let given := match cs with inl b => [b] | inr l => l end in
  let c := Constraint_init t cs next in
  type c = t /\ next_addr c = next /\
  tautology_free (constraints c) /\
  constraints c `sublist_of` given /\
  (forall b, In b given -> is_true b = false -> In b (constraints c)).
Proof.
  cbv zeta. repeat split.
  - apply filter_tautology_free.
  - apply filter_sublist.
  - intros b Hb Ht. simpl. apply List.filter_In. split; [done|]. by rewrite Ht.
Qed.


(** X3. Appending to a new record keeps its kind, its address and its
    earlier predicates in place, and the record stays free of tautologies
    exactly when the appended list is. *)
Theorem add_constraints_fresh_record (t : ConstraintType) (cs : Bool + list Bool)
    (next : option Z) (l : list Bool) :
  let c := Constraint_init t cs next in
  type (add_constraints c l) = t /\
  next_addr (add_constraints c l) = next /\
  constraints (add_constraints c l) = constraints c ++ l /\
  (tautology_free (constraints (add_constraints c l)) <-> tautology_free l).
Proof.
  cbv zeta. repeat split; try done;
    apply add_constraints_tautology_free, Constraint_init_tautology_free.
Qed.

End MoreRecords.

(** ** The register range synthesizer, continued *)

Section MoreRegConstraints.
Context `{angr : Angr}.

Lemma reg_constraints_step_Ok_inv (state : SimState) (out out' : list Bool) (r : string) :
  reg_constraints_step state out r = Ok out' ->
  (exists q, queried state r q) /\
  (length out <= length out' <= length out + 2)%nat.
Proof.
  unfold reg_constraints_step, queried.
  destruct (getattr_regs state r) as [reg|] eqn:Hr; [|done].
  rewrite result_bind_Ok.
  destruct (solver_min state reg) as [mn|] eqn:Hmin; [|done].
  rewrite result_bind_Ok.
  destruct (solver_max state reg) as [mx|] eqn:Hmax; [|done].
  rewrite result_bind_Ok.
  intros E. split; [by exists (reg, mn, mx)|].
  repeat case_decide; injection E as <-; rewrite ?length_app; simpl; lia.
Qed.

Lemma reg_constraints_loop_Ok_inv (state : SimState) (regs : list string) :
  forall out l, reg_constraints_loop state regs out = Ok l ->
  (forall r, r ∈ regs -> exists q, queried state r q) /\
  (length l <= length out + 2 * length regs)%nat.
Proof.
  induction regs as [|r regs IH]; intros out l; simpl.
  - intros [= <-]. split; [by intros r Hr; apply elem_of_nil in Hr | lia].
  - destruct (reg_constraints_step state out r) as [out'|] eqn:Hstep; [|done].
    rewrite result_bind_Ok. intros Hloop.
    apply reg_constraints_step_Ok_inv in Hstep as [Hq Hlen].
    apply IH in Hloop as [Hqs Hlen'].
    split; [|lia].
    intros r' Hr'. apply elem_of_cons in Hr' as [->|Hr']; [done | by apply Hqs].
Qed.

Lemma reg_constraints_Ok_inv (state : SimState) (bb : BasicBlock) (l : list Bool) :
  reg_constraints state bb = Ok l ->
  exists out,
    reg_constraints_loop state (elements (block_regs_written bb)) [] = Ok out /\
    l = List.filter (fun x => negb (is_true x)) out.
Proof.
  unfold reg_constraints, reg_constraints_out.
  destruct (reg_constraints_loop _ _ _) as [out|]; [|done].
  rewrite result_bind_Ok. intros [= <-]. by exists out.
Qed.

(** X4. What [reg_constraints] returns holds no tautology. *)
Theorem reg_constraints_tautology_free (state : SimState) (bb : BasicBlock)
    (l : list Bool) :
  reg_constraints state bb = Ok l -> tautology_free l.
Proof.
  intros (out & _ & ->)%reg_constraints_Ok_inv. apply filter_tautology_free.
Qed.

(** X5. A record built from any predicates and then extended with what
    [reg_constraints] returns is free of tautologies. *)
Theorem record_with_reg_constraints_tautology_free (state : SimState)
    (bb : BasicBlock) (l : list Bool) (t : ConstraintType) (cs : Bool + list Bool)
    (next : option Z) :
  reg_constraints state bb = Ok l ->
  tautology_free (constraints (add_constraints (Constraint_init t cs next) l)).
Proof.
  intros (out & _ & ->)%reg_constraints_Ok_inv.
  apply add_constraints_tautology_free;
    [apply Constraint_init_tautology_free | apply filter_tautology_free].
Qed.

(** X6. [reg_constraints] returns a list exactly when, for every register
    written in the block, the register lookup and both solver queries
    succeed. *)
Theorem reg_constraints_returns_iff (state : SimState) (bb : BasicBlock) :
  (exists l, reg_constraints state bb = Ok l) <->
  (forall i r, i ∈ instructions bb -> r ∈ regs_written i ->
     exists q, queried state r q).
Proof.
  split.
  - intros [l (out & Hloop & _)%reg_constraints_Ok_inv] i r Hi Hr.
    apply reg_constraints_loop_Ok_inv in Hloop as [Hq _].
    apply Hq, elem_of_elements, elem_of_block_regs_written. by exists i.
  - intros Hq.
    destruct (reg_constraints_loop_Ok state (elements (block_regs_written bb)))
      as (qs & _ & Hloop).
    { intros r Hr. apply elem_of_elements, elem_of_block_regs_written in Hr.
      destruct Hr as (i & Hi & Hr). by apply (Hq i). }
    eexists. unfold reg_constraints, reg_constraints_out. by rewrite Hloop.
Qed.

(** X7. A register written in the block that the state does not know makes
    [reg_constraints] raise. *)
Theorem reg_constraints_unknown_register (state : SimState) (bb : BasicBlock)
    (i : Instruction) (r : string) (e : exn) :
  i ∈ instructions bb ->
  r ∈ regs_written i ->
  getattr_regs state r = Raise e ->
  exists e', reg_constraints state bb = Raise e'.
Proof.
  intros Hi Hr He.
  destruct (reg_constraints state bb) as [l|e'] eqn:Hrun; [|by exists e'].
  apply reg_constraints_Ok_inv in Hrun as (out & Hloop & _).
  apply reg_constraints_loop_Ok_inv in Hloop as [Hq _].
  destruct (Hq r) as [q (Hq' & _)].
  { apply elem_of_elements, elem_of_block_regs_written. by exists i. }
  congruence.
Qed.

(** X8. A block whose instructions write no register yields the empty list,
    whatever the state and the solver. *)
Theorem reg_constraints_no_writes (state : SimState) (bb : BasicBlock) :
  (forall i, i ∈ instructions bb -> regs_written i = []) ->
  reg_constraints state bb = Ok [].
Proof.
  intros Hnone.
  assert (Hempty : block_regs_written bb = ∅).
  { apply set_eq. intros r. rewrite elem_of_block_regs_written. split.
    - intros (i & Hi & Hr). rewrite (Hnone i Hi) in Hr. by apply elem_of_nil in Hr.
    - intros Hr. by apply elem_of_empty in Hr. }
  unfold reg_constraints, reg_constraints_out.
  by rewrite Hempty, elements_empty.
Qed.

(** X9. The returned list has at most two predicates per distinct register
    written in the block. *)
Theorem reg_constraints_length (state : SimState) (bb : BasicBlock) (l : list Bool) :
  reg_constraints state bb = Ok l ->
  (length l <= 2 * size (block_regs_written bb))%nat.
Proof.
  intros (out & Hloop & ->)%reg_constraints_Ok_inv.
  apply reg_constraints_loop_Ok_inv in Hloop as [_ Hlen].
  pose proof (List.filter_length_le (fun x => negb (is_true x)) out) as Hf.
  unfold size, set_size. simpl in *. lia.
Qed.

End MoreRegConstraints.

Lemma reg_constraints_tautology_free_witness :
  tautology_free (angr := Toy.toy)
    [Le 0 (BVS "a1" 64); Le 0 (BVS "a0" 32); Lt (BVS "a0" 32) (2 ^ 32 - 1)].
Proof.
  apply (reg_constraints_tautology_free (angr := Toy.toy) Toy.s0
           (Toy.block ["a0"; "a1"; "sp"]%string)).
  vm_compute; reflexivity.
Defined.

Lemma record_with_reg_constraints_tautology_free_witness :
  tautology_free (angr := Toy.toy)
    (constraints
       (add_constraints
          (Constraint_init (angr := Toy.toy) BranchTrue
             (inr [BoolV true; BoolS "cond"]) (Some 4104))
          [Le 0 (BVS "a0" 32); Lt (BVS "a0" 32) (2 ^ 32 - 1)])).
Proof.
  apply (record_with_reg_constraints_tautology_free (angr := Toy.toy) Toy.s0
           (Toy.block ["a0"; "sp"]%string)).
  vm_compute; reflexivity.
Defined.

Lemma reg_constraints_unknown_register_witness :
  exists e',
    reg_constraints (angr := Toy.toy) Toy.s0 (Toy.block ["a0"; "zz"]%string) = Raise e'.
Proof.
  apply (reg_constraints_unknown_register (angr := Toy.toy) Toy.s0
           (Toy.block ["a0"; "zz"]%string) {| regs_written := ["a0"; "zz"]%string |}
           "zz" (AttributeError "zz")).
  - simpl. left.
  - simpl. right. left.
  - reflexivity.
Defined.

Lemma reg_constraints_no_writes_witness :
  reg_constraints (angr := Toy.toy) Toy.s0
    {| start_vaddr := 4096;
       instructions := [{| regs_written := [] |}; {| regs_written := [] |}] |} = Ok [].
Proof.
  apply (reg_constraints_no_writes (angr := Toy.toy)).
  intros i Hi. simpl in Hi.
  apply elem_of_cons in Hi as [->|Hi]; [done|].
  apply list_elem_of_singleton in Hi. by subst i.
Defined.

Lemma reg_constraints_length_witness :
  (length [Le 0 (BVS "a1" 64); Le 0 (BVS "a0" 32); Lt (BVS "a0" 32) (2 ^ 32 - 1)]
   <= 2 * size (block_regs_written (Toy.block ["a0"; "a1"; "sp"]%string)))%nat.
Proof.
  apply (reg_constraints_length (angr := Toy.toy) Toy.s0
           (Toy.block ["a0"; "a1"; "sp"]%string)).
  vm_compute; reflexivity.
Defined.

(** ** The memory symbolizer, continued *)

Section MoreSymbolizer.

Lemma range_length_positive_step (lo hi step : Z) :
  0 < step -> lo <= hi ->
  range_length lo hi step = (hi - lo + step - 1) / step.
Proof.
  intros Hs Hle. unfold range_length.
  destruct (Z.ltb_spec 0 step) as [_|]; [|lia].
  destruct (Z.ltb_spec lo hi) as [Hlt|Hge].
  - replace (hi - lo + step - 1) with (hi - 1 - lo + 1 * step) by lia.
    rewrite Z.div_add by lia. lia.
  - replace hi with lo by lia.
    replace (lo - lo + step - 1) with (step - 1) by lia.
    symmetry. apply Z.div_small. lia.
Qed.

Lemma range_items_length (lo hi step : Z) :
  length (range_items lo hi step) = Z.to_nat (range_length lo hi step).
Proof. unfold range_items. by rewrite length_map, length_seq. Qed.

Lemma range_items_empty (lo hi step : Z) :
  (0 < step /\ hi <= lo) \/ (step < 0 /\ lo <= hi) ->
  range_items lo hi step = [].
Proof.
  intros Hempty. unfold range_items, range_length.
  destruct (Z.ltb_spec 0 step), (Z.ltb_spec lo hi), (Z.ltb_spec hi lo);
    try lia; reflexivity.
Qed.

Lemma symbolizer_rejects_zero_chunk_aux (project : Project) (state : SimState)
    (data bss : Section_) :
  sections_map project !! ".data"%string = Some data ->
  sections_map project !! ".bss"%string = Some bss ->
  make_static_memory_symbolic project state 0 =
    (Raise (ValueError "range() arg 3 must not be zero"), state).
Proof.
  intros Hd Hb. unfold make_static_memory_symbolic, getitem.
  rewrite Hd. erewrite M_bind_Ok; [|reflexivity].
  rewrite Hb. erewrite M_bind_Ok; [|reflexivity].
  reflexivity.
Qed.

(** X10. A chunk size of zero is refused: with both sections present the
    call raises the [ValueError] of [range], nothing is stored and the state
    is as it was. *)
Theorem symbolizer_rejects_zero_chunk (project : Project) (state : SimState)
    (data bss : Section_) :
  sections_map project !! ".data"%string = Some data ->
  sections_map project !! ".bss"%string = Some bss ->
  fst (make_static_memory_symbolic project state 0) =
    Raise (ValueError "range() arg 3 must not be zero") /\
  snd (make_static_memory_symbolic project state 0) = state.
Proof.
  intros Hd Hb.
  by rewrite (symbolizer_rejects_zero_chunk_aux project state data bss Hd Hb).
Qed.

(** X11. When neither range has an item (a positive chunk size with sections
    that end where they start or before, or a negative one with sections that
    do not), the call stores nothing and returns the state as it was. *)
Theorem symbolizer_nothing_to_store (project : Project) (state : SimState)
    (chunk_size : Z) (data bss : Section_) :
  sections_map project !! ".data"%string = Some data ->
  sections_map project !! ".bss"%string = Some bss ->
  (0 < chunk_size /\ max_addr data <= min_addr data /\ max_addr bss <= min_addr bss) \/
  (chunk_size < 0 /\ min_addr data <= max_addr data /\ min_addr bss <= max_addr bss) ->
  make_static_memory_symbolic project state chunk_size = (Ok state, state).
Proof.
  intros Hd Hb [(Hc & Hde & Hbe)|(Hc & Hde & Hbe)].
  - pose proof (make_static_memory_symbolic_Ok project state chunk_size data bss
                  Hd Hb Hc) as Hrun.
    cbv zeta in Hrun.
    rewrite !range_items_empty in Hrun by lia.
    by rewrite stored_nil in Hrun.
  - rewrite (make_static_memory_symbolic_negative project state chunk_size data bss
               Hd Hb Hc).
    by rewrite !range_items_empty by lia.
Qed.

(** The chunks stored under a prefix start at the items of that section's
    range. *)
Lemma in_section_chunks (chunk_size : Z) (data bss sec : Section_) (prefix : string)
    (a : Z) :
  (sec = data /\ prefix = "data_"%string) \/ (sec = bss /\ prefix = "bss_"%string) ->
  In (a, BVS (prefix +:+ hex a) (chunk_size * 8))
     (symbolic_chunks "data_" chunk_size
        (range_items (min_addr data) (max_addr data) chunk_size) ++
      symbolic_chunks "bss_" chunk_size
        (range_items (min_addr bss) (max_addr bss) chunk_size)) <->
  In a (range_items (min_addr sec) (max_addr sec) chunk_size).
Proof.
  intros Hsec. rewrite in_app_iff, !in_symbolic_chunks.
  destruct Hsec as [[-> ->]|[-> ->]]; split.
  - intros [[Ha _]|[_ E]]; [done | discriminate E].
  - intros Ha. by left.
  - intros [[_ E]|[Ha _]]; [discriminate E | done].
  - intros Ha. by right.
Qed.

(** X12. With a positive chunk size, every address from [min_addr] up to,
    but not including, [max_addr] of a section lies within the [chunk_size]
    bytes of a chunk stored for that section.  The address [max_addr] itself
    lies within one exactly when the section is not empty and
    [max_addr - min_addr] is not a multiple of the chunk size: the range
    stops before [max_addr], so for a multiple the byte at [max_addr] is in
    no chunk of the section. *)
Theorem symbolizer_covers_sections (project : Project) (state : SimState)
    (chunk_size : Z) (data bss sec : Section_) (prefix : string) :
  sections_map project !! ".data"%string = Some data ->
  sections_map project !! ".bss"%string = Some bss ->
  (sec = data /\ prefix = "data_"%string) \/ (sec = bss /\ prefix = "bss_"%string) ->
  0 < chunk_size ->
  exists state' new,
    make_static_memory_symbolic project state chunk_size = (Ok state', state') /\
    memory state' = memory state ++ new /\
    (forall b, min_addr sec <= b < max_addr sec ->
       exists a, In (a, BVS (prefix +:+ hex a) (chunk_size * 8)) new /\
                 a <= b < a + chunk_size) /\
    ((exists a, In (a, BVS (prefix +:+ hex a) (chunk_size * 8)) new /\
                a <= max_addr sec < a + chunk_size) <->
     (min_addr sec < max_addr sec /\
      (max_addr sec - min_addr sec) mod chunk_size <> 0)).
Proof.
  intros Hd Hb Hsec Hc.
  pose proof (make_static_memory_symbolic_Ok project state chunk_size data bss
                Hd Hb Hc) as Hrun.
  cbv zeta in Hrun.
  eexists _, _. split; [exact Hrun|]. split; [reflexivity|].
  set (lo := min_addr sec). set (hi := max_addr sec).
  split.
  - intros b Hb'.
    pose proof (Z.div_mod (b - lo) chunk_size ltac:(lia)) as Hdm.
    pose proof (Z.mod_pos_bound (b - lo) chunk_size Hc) as Hr.
    assert (Hq : 0 <= (b - lo) / chunk_size) by (apply Z.div_pos; lia).
    exists (lo + chunk_size * ((b - lo) / chunk_size)).
    split; [|lia].
    apply (in_section_chunks chunk_size data bss sec prefix _ Hsec).
    apply elem_of_range_items; [done|]. fold lo hi. split; [nia|].
    replace (lo + chunk_size * ((b - lo) / chunk_size) - lo)
      with ((b - lo) / chunk_size * chunk_size) by lia.
    apply Z_mod_mult.
  - pose proof (Z.div_mod (hi - lo) chunk_size ltac:(lia)) as Hdm.
    pose proof (Z.mod_pos_bound (hi - lo) chunk_size Hc) as Hr.
    split.
    + intros (a & Hin & Ha).
      apply (in_section_chunks chunk_size data bss sec prefix _ Hsec) in Hin.
      apply elem_of_range_items in Hin as [Hrange Hmod]; [|done]. fold lo hi in Hrange, Hmod.
      split; [lia|].
      assert (Hex : a - lo = chunk_size * ((a - lo) / chunk_size))
        by (apply Z_div_exact_full_2; lia).
      replace (hi - lo) with (hi - a + (a - lo) / chunk_size * chunk_size) by lia.
      rewrite Z_mod_plus_full, Z.mod_small by lia. lia.
    + intros [Hne Hmod].
      assert (Hq : 0 <= (hi - lo) / chunk_size) by (apply Z.div_pos; lia).
      exists (lo + chunk_size * ((hi - lo) / chunk_size)).
      split; [|lia].
      apply (in_section_chunks chunk_size data bss sec prefix _ Hsec).
      apply elem_of_range_items; [done|]. fold lo hi. split; [nia|].
      replace (lo + chunk_size * ((hi - lo) / chunk_size) - lo)
        with ((hi - lo) / chunk_size * chunk_size) by lia.
      apply Z_mod_mult.
Qed.

(** X13. When the remainder of [max_addr - min_addr] by the positive chunk
    size is neither zero nor [chunk_size - 1], a chunk stored for the section
    starts below [max_addr] and its last byte, at [a + chunk_size - 1], lies
    strictly above [max_addr]: the symbolizer stores beyond [max_addr]. *)
Theorem symbolizer_overruns_section_end (project : Project) (state : SimState)
    (chunk_size : Z) (data bss sec : Section_) (prefix : string) :
  sections_map project !! ".data"%string = Some data ->
  sections_map project !! ".bss"%string = Some bss ->
  (sec = data /\ prefix = "data_"%string) \/ (sec = bss /\ prefix = "bss_"%string) ->
  0 < chunk_size ->
  min_addr sec < max_addr sec ->
  0 < (max_addr sec - min_addr sec) mod chunk_size < chunk_size - 1 ->
  exists state' new,
    make_static_memory_symbolic project state chunk_size = (Ok state', state') /\
    memory state' = memory state ++ new /\
    exists a, In (a, BVS (prefix +:+ hex a) (chunk_size * 8)) new /\
              a < max_addr sec /\ max_addr sec < a + chunk_size - 1.
Proof.
  intros Hd Hb Hsec Hc Hne Hmod.
  pose proof (make_static_memory_symbolic_Ok project state chunk_size data bss
                Hd Hb Hc) as Hrun.
  cbv zeta in Hrun.
  eexists _, _. split; [exact Hrun|]. split; [reflexivity|].
  set (lo := min_addr sec) in *. set (hi := max_addr sec) in *.
  pose proof (Z.div_mod (hi - lo) chunk_size ltac:(lia)) as Hdm.
  assert (Hq : 0 <= (hi - lo) / chunk_size) by (apply Z.div_pos; lia).
  exists (lo + chunk_size * ((hi - lo) / chunk_size)).
  split; [|lia].
  apply (in_section_chunks chunk_size data bss sec prefix _ Hsec).
  apply elem_of_range_items; [done|]. fold lo hi. split; [nia|].
  replace (lo + chunk_size * ((hi - lo) / chunk_size) - lo)
    with ((hi - lo) / chunk_size * chunk_size) by lia.
  apply Z_mod_mult.
Qed.

(** X14. With a positive chunk size and sections that do not end before they
    start, the number of stores is the size of each section divided by the
    chunk size, rounded up. *)
Theorem symbolizer_store_count (project : Project) (state : SimState)
    (chunk_size : Z) (data bss : Section_) :
  sections_map project !! ".data"%string = Some data ->
  sections_map project !! ".bss"%string = Some bss ->
  0 < chunk_size ->
  min_addr data <= max_addr data ->
  min_addr bss <= max_addr bss ->
  exists state',
    make_static_memory_symbolic project state chunk_size = (Ok state', state') /\
    Z.of_nat (length (memory state')) =
      Z.of_nat (length (memory state)) +
      (max_addr data - min_addr data + chunk_size - 1) / chunk_size +
      (max_addr bss - min_addr bss + chunk_size - 1) / chunk_size.
Proof.
  intros Hd Hb Hc Hdle Hble.
  pose proof (make_static_memory_symbolic_Ok project state chunk_size data bss
                Hd Hb ltac:(lia)) as Hrun.
  cbv zeta in Hrun.
  eexists. split; [exact Hrun|].
  unfold stored, symbolic_chunks. simpl.
  rewrite !length_app, !length_map, !range_items_length.
  rewrite !range_length_positive_step by done.
  assert (0 <= (max_addr data - min_addr data + chunk_size - 1) / chunk_size)
    by (apply Z.div_pos; lia).
  assert (0 <= (max_addr bss - min_addr bss + chunk_size - 1) / chunk_size)
    by (apply Z.div_pos; lia).
  lia.
Qed.

(** X15. Symbolizing the returned state once more stores again at the same
    addresses, in the same order, after the first stores. *)
Theorem symbolizer_twice (project : Project) (state : SimState)
    (chunk_size : Z) (data bss : Section_) :
  sections_map project !! ".data"%string = Some data ->
  sections_map project !! ".bss"%string = Some bss ->
  0 < chunk_size ->
  exists state1 state2 new1 new2,
    make_static_memory_symbolic project state chunk_size = (Ok state1, state1) /\
    make_static_memory_symbolic project state1 chunk_size = (Ok state2, state2) /\
    memory state1 = memory state ++ new1 /\
    memory state2 = memory state ++ new1 ++ new2 /\
    map fst new2 = map fst new1.
Proof.
  intros Hd Hb Hc.
  pose proof (fun st => make_static_memory_symbolic_Ok project st chunk_size data bss
                Hd Hb Hc) as Hrun.
  cbv zeta in Hrun.
  eexists _, _, _, _. split; [apply Hrun|]. split; [apply Hrun|].
  split; [reflexivity|]. split; [|reflexivity].
  simpl. by rewrite <- List.app_assoc.
Qed.

(** X16. A missing [.data] section is reported first: the [KeyError] names
    [.data] whether or not [.bss] is there and whatever the chunk size, zero
    included, and the state is as it was. *)
Theorem symbolizer_reports_data_first (project : Project) (state : SimState)
    (chunk_size : Z) :
  sections_map project !! ".data"%string = None ->
  make_static_memory_symbolic project state chunk_size =
    (Raise (KeyError ".data"), state).
Proof.
  intros Hd. unfold make_static_memory_symbolic, getitem. by rewrite Hd.
Qed.

(** X17. Whatever the project, the state and the chunk size, and whether the
    call returns or raises, the state's memory only grows at its end, and its
    instruction pointer, constraints and breakpoints are as they were. *)
Theorem symbolizer_only_appends (project : Project) (state : SimState)
    (chunk_size : Z) :
  exists new,
    memory (snd (make_static_memory_symbolic project state chunk_size))
      = memory state ++ new /\
    ip (snd (make_static_memory_symbolic project state chunk_size)) = ip state /\
    solver_constraints (snd (make_static_memory_symbolic project state chunk_size))
      = solver_constraints state /\
    inspect (snd (make_static_memory_symbolic project state chunk_size))
      = inspect state.
Proof.
  destruct (sections_map project !! ".data"%string) as [data|] eqn:Hd;
    [destruct (sections_map project !! ".bss"%string) as [bss|] eqn:Hb|].
  - destruct (Z.lt_trichotomy chunk_size 0) as [Hc|[->|Hc]].
    + rewrite (make_static_memory_symbolic_negative project state chunk_size data bss
                 Hd Hb Hc).
      exists []. by rewrite List.app_nil_r.
    + rewrite (symbolizer_rejects_zero_chunk_aux project state data bss Hd Hb).
      exists []. by rewrite List.app_nil_r.
    + pose proof (make_static_memory_symbolic_Ok project state chunk_size data bss
                    Hd Hb ltac:(lia)) as Hrun.
      cbv zeta in Hrun. rewrite Hrun. by eexists.
  - destruct (make_static_memory_symbolic_KeyError project state chunk_size
                (or_intror Hb)) as (key & _ & _ & ->).
    exists []. by rewrite List.app_nil_r.
  - destruct (make_static_memory_symbolic_KeyError project state chunk_size
                (or_introl Hd)) as (key & _ & _ & ->).
    exists []. by rewrite List.app_nil_r.
Qed.

End MoreSymbolizer.

Lemma symbolizer_rejects_zero_chunk_witness :
  fst (make_static_memory_symbolic Toy.data_bss Toy.s0 0) =
    Raise (ValueError "range() arg 3 must not be zero") /\
  snd (make_static_memory_symbolic Toy.data_bss Toy.s0 0) = Toy.s0.
Proof.
  apply (symbolizer_rejects_zero_chunk Toy.data_bss Toy.s0
           {| min_addr := 8192; max_addr := 8202 |}
           {| min_addr := 12288; max_addr := 12296 |});
    vm_compute; reflexivity.
Defined.

Lemma symbolizer_nothing_to_store_witness :
  make_static_memory_symbolic Toy.data_bss Toy.s0 (-4) = (Ok Toy.s0, Toy.s0).
Proof.
  apply (symbolizer_nothing_to_store Toy.data_bss Toy.s0 (-4)
           {| min_addr := 8192; max_addr := 8202 |}
           {| min_addr := 12288; max_addr := 12296 |}).
  - vm_compute; reflexivity.
  - vm_compute; reflexivity.
  - right. simpl. lia.
Defined.

Lemma symbolizer_covers_sections_witness :
  exists state' new,
    make_static_memory_symbolic Toy.data_bss Toy.s0 4 = (Ok state', state') /\
    memory state' = memory Toy.s0 ++ new /\
    (forall b, 12288 <= b < 12296 ->
       exists a, In (a, BVS ("bss_" +:+ hex a) (4 * 8)) new /\ a <= b < a + 4) /\
    ((exists a, In (a, BVS ("bss_" +:+ hex a) (4 * 8)) new /\ a <= 12296 < a + 4) <->
     (12288 < 12296 /\ (12296 - 12288) mod 4 <> 0)).
Proof.
  apply (symbolizer_covers_sections Toy.data_bss Toy.s0 4
           {| min_addr := 8192; max_addr := 8202 |}
           {| min_addr := 12288; max_addr := 12296 |}
           {| min_addr := 12288; max_addr := 12296 |} "bss_").
  - vm_compute; reflexivity.
  - vm_compute; reflexivity.
  - by right.
  - lia.
Defined.

Lemma symbolizer_overruns_section_end_witness :
  exists state' new,
    make_static_memory_symbolic Toy.data_bss Toy.s0 4 = (Ok state', state') /\
    memory state' = memory Toy.s0 ++ new /\
    exists a, In (a, BVS ("data_" +:+ hex a) (4 * 8)) new /\
              a < 8202 /\ 8202 < a + 4 - 1.
Proof.
  apply (symbolizer_overruns_section_end Toy.data_bss Toy.s0 4
           {| min_addr := 8192; max_addr := 8202 |}
           {| min_addr := 12288; max_addr := 12296 |}
           {| min_addr := 8192; max_addr := 8202 |} "data_").
  - vm_compute; reflexivity.
  - vm_compute; reflexivity.
  - by left.
  - lia.
  - simpl. lia.
  - vm_compute. split; reflexivity.
Defined.

Lemma symbolizer_store_count_witness :
  exists state',
    make_static_memory_symbolic Toy.data_bss Toy.s0 4 = (Ok state', state') /\
    Z.of_nat (length (memory state')) =
      Z.of_nat (length (memory Toy.s0)) +
      (8202 - 8192 + 4 - 1) / 4 + (12296 - 12288 + 4 - 1) / 4.
Proof.
  apply (symbolizer_store_count Toy.data_bss Toy.s0 4
           {| min_addr := 8192; max_addr := 8202 |}
           {| min_addr := 12288; max_addr := 12296 |}).
  - vm_compute; reflexivity.
  - vm_compute; reflexivity.
  - lia.
  - simpl. lia.
  - simpl. lia.
Defined.

Lemma symbolizer_twice_witness :
  exists state1 state2 new1 new2,
    make_static_memory_symbolic Toy.data_bss Toy.s0 4 = (Ok state1, state1) /\
    make_static_memory_symbolic Toy.data_bss state1 4 = (Ok state2, state2) /\
    memory state1 = memory Toy.s0 ++ new1 /\
    memory state2 = memory Toy.s0 ++ new1 ++ new2 /\
    map fst new2 = map fst new1.
Proof.
  apply (symbolizer_twice Toy.data_bss Toy.s0 4
           {| min_addr := 8192; max_addr := 8202 |}
           {| min_addr := 12288; max_addr := 12296 |}).
  - vm_compute; reflexivity.
  - vm_compute; reflexivity.
  - lia.
Defined.

Lemma symbolizer_reports_data_first_witness :
  make_static_memory_symbolic Sample.no_sections Toy.s0 0 =
    (Raise (KeyError ".data"), Toy.s0).
Proof.
  apply (symbolizer_reports_data_first Sample.no_sections Toy.s0 0).
  vm_compute; reflexivity.
Defined.

(** ** [exec_func], continued *)

Section MoreExecutors.
Context `{angr : Angr}.


End MoreExecutors.

(** ** [get_project] *)

Section GetProjectFacts.
Variable Arch : Type.
Variable ArchLanguage : Type.
Variable languages : Arch -> list ArchLanguage.
Variable id : ArchLanguage -> string.
Variable enumerate : list Arch.
Variable load : string -> ArchLanguage -> result Project.

Local Abbreviation has_id lang := (fun l => bool_decide (id l = lang)).

Lemma search_languages_find (ls : list ArchLanguage) (lang : string)
    (sparc_lang : option ArchLanguage) :
  search_languages id ls lang sparc_lang =
    match List.find (has_id lang) ls with
    | Some l => Some l
    | None => sparc_lang
    end.
Proof.
  induction ls as [|l ls IH]; simpl; [done|].
  case_decide as Hid.
  - by rewrite bool_decide_eq_true_2.
  - by rewrite bool_decide_eq_false_2.
Qed.

Lemma find_app_first {A} (f : A -> bool) (l1 l2 : list A) :
  List.find f (l1 ++ l2) =
    match List.find f l1 with
    | Some x => Some x
    | None => List.find f l2
    end.
Proof.
  induction l1 as [|x l1 IH]; simpl; [done|]. by destruct (f x).
Qed.

Lemma search_arches_find (arches : list Arch) (lang : string) :
  search_arches languages id arches lang None =
    List.find (has_id lang) (flat_map languages arches).
Proof.
  induction arches as [|arch arches IH]; simpl; [done|].
  rewrite search_languages_find, find_app_first.
  by destruct (List.find _ (languages arch)).
Qed.

(** X19. The two nested loops with their [break]s select the first language,
    architectures taken in the order of the enumeration and languages in the
    order each architecture lists them, whose identifier is the requested
    one; the project is loaded for that language, and an error of the loader
    is passed on. *)
Theorem get_project_first_match (bin_path lang : string) :
  get_project languages id enumerate load bin_path lang =
    match List.find (has_id lang) (flat_map languages enumerate) with
    | None => inl (Exception ("Unable to find SPARC language for " +:+ lang))
    | Some l =>
        match load bin_path l with
        | Ok p => inr p
        | Raise e => inl (Propagated e)
        end
    end.
Proof. unfold get_project. by rewrite search_arches_find. Qed.

(** X20. [get_project] raises its own exception, whose message ends in the
    requested identifier, exactly when no language of any enumerated
    architecture has that identifier. *)
Theorem get_project_unknown_language (bin_path lang : string) :
  get_project languages id enumerate load bin_path lang =
    inl (Exception ("Unable to find SPARC language for " +:+ lang)) <->
  (forall arch l, In arch enumerate -> In l (languages arch) -> id l <> lang).
Proof.
  unfold get_project. rewrite search_arches_find. split.
  - intros Hrun arch l Harch Hl Hid.
    destruct (List.find _ _) as [l'|] eqn:Hfind.
    + by destruct (load bin_path l').
    + assert (Hin : In l (flat_map languages enumerate))
        by (apply in_flat_map; by exists arch).
      pose proof (List.find_none _ _ Hfind l Hin) as Hf. simpl in Hf.
      by rewrite bool_decide_eq_true_2 in Hf.
  - intros Hnone.
    destruct (List.find _ _) as [l'|] eqn:Hfind; [|done].
    apply List.find_some in Hfind as [Hin Hid].
    apply in_flat_map in Hin as (arch & Harch & Hl).
    apply bool_decide_eq_true_1 in Hid. by destruct (Hnone arch l').
Qed.

(** X21. A project that [get_project] returns was loaded from the given
    path for a language of an enumerated architecture whose identifier is
    the requested one. *)
Theorem get_project_loads_requested_language (bin_path lang : string) (p : Project) :
  get_project languages id enumerate load bin_path lang = inr p ->
  exists arch l,
    In arch enumerate /\ In l (languages arch) /\ id l = lang /\
    load bin_path l = Ok p.
Proof.
  unfold get_project. rewrite search_arches_find.
  destruct (List.find _ _) as [l|] eqn:Hfind; [|done].
  apply List.find_some in Hfind as [Hin Hid].
  apply in_flat_map in Hin as (arch & Harch & Hl).
  apply bool_decide_eq_true_1 in Hid.
  destruct (load bin_path l) as [p'|] eqn:Hload; [|done].
  intros [= <-]. by exists arch, l.
Qed.

End GetProjectFacts.

Lemma get_project_loads_requested_language_witness :
  exists arch l,
    In arch Sample.arches /\ In l arch /\ fst l = default_lang /\
    Sample.load "a.out" l = Ok Toy.data_bss.
Proof.
  apply (get_project_loads_requested_language _ _ (fun arch => arch) fst
           Sample.arches Sample.load "a.out" default_lang Toy.data_bss).
  vm_compute; reflexivity.
Defined.

(** Of the two languages with the requested identifier, the first is used. *)
Example get_project_sample :
  search_arches (fun arch => arch) fst Sample.arches default_lang None =
    Some ("RISCV:LE:32:default"%string, 2%nat) /\
  get_project (fun arch => arch) fst Sample.arches Sample.load "missing" default_lang =
    inl (Propagated (EngineError "no such file")) /\
  get_project (fun arch => arch) fst Sample.arches Sample.load "a.out" "SPARC:BE:32:default" =
    inl (Exception "Unable to find SPARC language for SPARC:BE:32:default").
Proof. repeat split. Qed.

(** ** [StashMonitor] *)

Section StashMonitorFacts.
Context `{angr : Angr}.
Variable kwargs : Type.
Variable stashes_items : SimulationManager -> list (string * list SimState).
Variable simgr_step : SimulationManager -> string -> kwargs -> result SimulationManager.

Lemma string_app_assoc (a b c : string) : (a +:+ b) +:+ c = a +:+ b +:+ c.
Proof.
  induction a as [|x a IH]; [reflexivity|].
  change (String x ((a +:+ b) +:+ c) = String x (a +:+ b +:+ c)). by rewrite IH.
Qed.

Lemma string_app_nil_r (a : string) : a +:+ "" = a.
Proof.
  induction a as [|x a IH]; [reflexivity|].
  change (String x (a +:+ "") = String x a). by rewrite IH.
Qed.

(** What one state adds to the line of its stash. *)
Local Abbreviation state_item := (fun (s : SimState) (rest : string) =>
  match getattr_state s "addr" with
  | Ok (PyInt a) => hex a +:+ "," +:+ rest
  | _ => "<symbolic>," +:+ rest
  end).

Lemma for_print_state_addr (states : list SimState) (tail out : string) :
  exists out',
    for_ states print_state_addr out = (Ok tt, out') /\
    out' +:+ tail = out +:+ foldr state_item tail states.
Proof.
  revert out. induction states as [|s states IH]; intros out.
  - by exists out.
  - destruct (IH (out +:+
      match getattr_state s "addr" with
      | Ok (PyInt a) => hex a +:+ ","
      | _ => "<symbolic>,"
      end)) as (out' & Hrun & Hout).
    exists out'. split.
    + simpl. erewrite M_bind_Ok; [exact Hrun|].
      unfold print_state_addr, print_end, modify.
      destruct (getattr_state s "addr") as [[]|]; by rewrite string_app_nil_r.
    + rewrite Hout. simpl.
      destruct (getattr_state s "addr") as [[]|]; by rewrite !string_app_assoc.
Qed.

Lemma for_print_stashes (stashes : list (string * list SimState)) (out : string) :
  for_ stashes (fun '(stash_name, states) =>
    match states with
    | [] => mret tt
    | _ :: _ =>
        print_end (stash_name +:+ " (" +:+ pretty (length states) +:+ "): [") "";;
        for_ states print_state_addr;;
        print_end "]" nl
    end) out
  = (Ok tt, out +:+
       foldr (fun '(stash_name, states) rest => stash_line stash_name states +:+ rest)
             "" stashes).
Proof.
  revert out. induction stashes as [|[stash_name states] stashes IH]; intros out.
  - simpl. by rewrite string_app_nil_r.
  - cbn [for_ foldr]. destruct states as [|s states].
    + erewrite M_bind_Ok; [|reflexivity]. by rewrite IH.
    + destruct (for_print_state_addr (s :: states) ("]" +:+ nl)
        (out +:+ stash_name +:+ " (" +:+ pretty (length (s :: states)) +:+ "): ["))
        as (out' & Hrun & Hout).
      erewrite M_bind_Ok; [rewrite IH|].
      2:{ erewrite M_bind_Ok; [|unfold print_end, modify; by rewrite string_app_nil_r].
          erewrite M_bind_Ok; [|exact Hrun]. reflexivity. }
      f_equal. rewrite Hout. unfold stash_line.
      by rewrite !string_app_assoc.
Qed.

(** X22. [_print_stashes] never raises, keeps what was written before, and
    adds one line per non-empty stash, in the order of the dictionary: the
    name, the number of states, and for each state its address in
    hexadecimal, or [<symbolic>] when the address cannot be read, each
    followed by a comma.  Empty stashes add nothing. *)
Theorem print_stashes_output (simgr : SimulationManager) (out : string) :
  _print_stashes stashes_items simgr out =
    (Ok tt, out +:+ stashes_text stashes_items simgr).
Proof. apply for_print_stashes. Qed.

(** A heading after an empty line, and the stashes under it. *)
Lemma StashMonitor_step_before (heading : string) (simgr : SimulationManager)
    (out : string) :
  (print_end (nl +:+ heading) nl;; _print_stashes stashes_items simgr) out =
    (Ok tt, out +:+ nl +:+ heading +:+ nl +:+ stashes_text stashes_items simgr).
Proof.
  erewrite M_bind_Ok; [|reflexivity].
  unfold _print_stashes. rewrite for_print_stashes. unfold stashes_text.
  by rewrite !string_app_assoc.
Qed.

(** X23. [StashMonitor.step] adds no outcome of its own: verbose or not, it
    returns what [simgr.step] returns and raises what [simgr.step] raises.
    When not verbose it writes nothing; when verbose and [simgr.step] raises,
    the block under [Before step:] has been written and nothing after it. *)
Theorem StashMonitor_step_transparent (verbose : bool) (simgr : SimulationManager)
    (stash : string) (kw : kwargs) (out : string) :
  fst (StashMonitor_step stashes_items simgr_step verbose simgr stash kw out)
    = simgr_step simgr stash kw /\
  snd (StashMonitor_step stashes_items simgr_step false simgr stash kw out) = out /\
  (forall e, simgr_step simgr stash kw = Raise e ->
     snd (StashMonitor_step stashes_items simgr_step true simgr stash kw out) =
       out +:+ nl +:+ "Before step:" +:+ nl +:+ stashes_text stashes_items simgr).
Proof.
  unfold StashMonitor_step. repeat split.
  - destruct verbose.
    + erewrite M_bind_Ok; [|apply StashMonitor_step_before].
      destruct (simgr_step simgr stash kw) as [simgr'|e]; [|reflexivity].
      erewrite M_bind_Ok; [|reflexivity].
      erewrite M_bind_Ok; [|apply StashMonitor_step_before]. reflexivity.
    + by destruct (simgr_step simgr stash kw).
  - by destruct (simgr_step simgr stash kw).
  - intros e He.
    erewrite M_bind_Ok; [|apply StashMonitor_step_before].
    by rewrite He.
Qed.

(** X24. When verbose and [simgr.step] returns, [StashMonitor.step] writes
    the stashes of the manager it was given under [Before step:] and those of
    the stepped manager under [After step:], each heading after an empty
    line. *)
Theorem StashMonitor_step_verbose_output (simgr simgr' : SimulationManager)
    (stash : string) (kw : kwargs) (out : string) :
  simgr_step simgr stash kw = Ok simgr' ->
  snd (StashMonitor_step stashes_items simgr_step true simgr stash kw out) =
    out +:+ nl +:+ "Before step:" +:+ nl +:+ stashes_text stashes_items simgr +:+
    nl +:+ "After step:" +:+ nl +:+ stashes_text stashes_items simgr'.
Proof.
  intros Hstep. unfold StashMonitor_step.
  erewrite M_bind_Ok; [|apply StashMonitor_step_before].
  rewrite Hstep. erewrite M_bind_Ok; [|reflexivity].
  erewrite M_bind_Ok; [|apply StashMonitor_step_before].
  simpl. by rewrite !string_app_assoc.
Qed.

(** X25. When every stash is empty, [_print_stashes] writes nothing. *)
Theorem print_stashes_skips_empty (simgr : SimulationManager) (out : string) :
  (forall stash_name states,
     In (stash_name, states) (stashes_items simgr) -> states = []) ->
  _print_stashes stashes_items simgr out = (Ok tt, out).
Proof.
  intros Hempty. unfold _print_stashes. rewrite for_print_stashes.
  f_equal. rewrite <- (string_app_nil_r out) at 2. f_equal.
  induction (stashes_items simgr) as [|[stash_name states] stashes IH]; [done|].
  simpl. rewrite (Hempty stash_name states) by (by left). simpl.
  apply IH. intros n sts Hin. apply (Hempty n sts). by right.
Qed.

End StashMonitorFacts.

Lemma print_stashes_skips_empty_witness :
  _print_stashes (angr := Sample.angr) Sample.items Sample.sm_empty "log" = (Ok tt, "log"%string).
Proof.
  apply (print_stashes_skips_empty (angr := Sample.angr) Sample.items Sample.sm_empty).
  intros stash_name states Hin. simpl in Hin.
  destruct Hin as [[= _ <-]|[[= _ <-]|[[= _ <-]|[]]]]; reflexivity.
Defined.

Lemma StashMonitor_step_verbose_output_witness :
  snd (StashMonitor_step (angr := Sample.angr) Sample.items Sample.step_active
         true Sample.sm0 "active" tt "") =
    "" +:+ nl +:+ "Before step:" +:+ nl +:+
    stashes_text (angr := Sample.angr) Sample.items Sample.sm0 +:+
    nl +:+ "After step:" +:+ nl +:+
    stashes_text (angr := Sample.angr) Sample.items
      (Toy.toy_step Toy.data_bss Sample.sm0).
Proof.
  apply (StashMonitor_step_verbose_output (angr := Sample.angr) unit Sample.items
           Sample.step_active Sample.sm0 (Toy.toy_step Toy.data_bss Sample.sm0)
           "active" tt "").
  reflexivity.
Defined.

(** The monitor on a manager with a state whose address cannot be read. *)
Example StashMonitor_step_sample :
  snd (StashMonitor_step (angr := Sample.angr) Sample.items Sample.step_active
         false Sample.sm0 "active" tt "") = ""%string /\
  _print_stashes (angr := Sample.angr) Sample.items Sample.sm0 "" =
    (Ok tt,
     "active (2): [0x1000,<symbolic>,]" +:+ nl +:+
     "unconstrained (1): [<symbolic>,]" +:+ nl).
Proof. split; vm_compute; reflexivity. Qed.
